(** * Incremental Markdown renderer: [MarkdownBuffer]

    A shallow embedding of the active [MarkdownBuffer] class of
    [scripts/markdown_buffer.py] and the properties its specification
    states about it, followed by further properties of the class and of
    [formatCSVFile] of [scripts/helpers/loaddocs/convert.py].

    Conventions of the embedding.
    - A Python [str] is a list of characters.  Characters are the code
      points below 256 ([ascii]); the character classes of the regular
      expressions ([\s], [\d], [.]) and of [str.lstrip] are given on that
      range.
    - [self] is the record [State]; a method is a function from the state
      to a result that is either a returned value with the new state or a
      raised exception with the state as the exception left it.
    - [self.list_stack] is a list whose head is the Python list's last
      element ([self.list_stack[-1]], the innermost open list).
    - The strings the methods emit are kept as constructors of [fragment];
      [render] gives the Python string of each. *)

From Equations Require Import Equations.
From Equations.Prop Require Import Logic.
From Stdlib Require Import Ascii String DecimalString.
From Stdlib Require Import List Arith Lia Bool NArith.
Import ListNotations.
Open Scope string_scope.
Open Scope nat_scope.
Open Scope list_scope.

Set Implicit Arguments.

(** ** Strings *)

Definition str := list ascii.

(** A literal of the source, written as a Rocq string. *)
Definition py (s : string) : str := list_ascii_of_string s.

Definition nl : ascii := ascii_of_nat 10.
Definition star : ascii := "*"%char.
Definition hash : ascii := "#"%char.

Definition str_eqb (a b : str) : bool :=
  if list_eq_dec ascii_dec a b then true else false.

(** [str.isspace] on one character, which is also the class [\s] of a
    [str] pattern: TAB..CR, FS..US, space, and NEL and NBSP in Latin-1. *)
Definition isspace (c : ascii) : bool :=
  let n := nat_of_ascii c in
  ((9 <=? n) && (n <=? 13)) || ((28 <=? n) && (n <=? 32))
  || (n =? 133) || (n =? 160).

(** The class [\d] of a [str] pattern: below 256 only the ten ASCII digits
    are decimal digits. *)
Definition isdigit (c : ascii) : bool :=
  let n := nat_of_ascii c in (48 <=? n) && (n <=? 57).

(** [s.lstrip()] *)
Fixpoint lstrip (s : str) : str :=
  match s with
  | c :: t => if isspace c then lstrip t else s
  | [] => []
  end.

(** [s.strip()] *)
Definition strip (s : str) : str := rev (lstrip (rev (lstrip s))).

(** [s.startswith(p)] *)
Fixpoint startswith (p s : str) : bool :=
  match p, s with
  | [], _ => true
  | a :: p', b :: s' => Ascii.eqb a b && startswith p' s'
  | _ :: _, [] => false
  end.

(** [s.split('\n')]: never empty, the last element is the text after the
    last line feed. *)
Fixpoint split_nl (s : str) : list str :=
  match s with
  | [] => [[]]
  | c :: t =>
      if Ascii.eqb c nl then [] :: split_nl t
      else match split_nl t with
           | h :: r => (c :: h) :: r
           | [] => [[c]]
           end
  end.

(** The longest prefix of characters satisfying [p], and the rest. *)
Fixpoint span (p : ascii -> bool) (s : str) : str * str :=
  match s with
  | c :: t => if p c then let (a, b) := span p t in (c :: a, b) else ([], s)
  | [] => ([], [])
  end.

(** The value [int(digits)] returns for a non-empty run of ASCII digits. *)
Definition digit_value (c : ascii) : N := N.of_nat (nat_of_ascii c - 48).

Definition int_of_digits (ds : str) : N :=
  fold_left (fun acc c => (acc * 10 + digit_value c)%N) ds 0%N.

(** [int] does not convert a literal of more than
    [sys.get_int_max_str_digits()] digits, 4300 unless the interpreter is
    set otherwise, and raises [ValueError] on it.  Leading zeros count. *)
Definition int_max_str_digits : nat := 4300.

Definition exceeds_int_limit (ds : str) : bool :=
  int_max_str_digits <? length ds.
Arguments exceeds_int_limit : simpl never.

(** [str(n)], as an f-string formats an [int]. *)
Definition str_of_N (n : N) : str :=
  list_ascii_of_string (NilEmpty.string_of_uint (N.to_uint n)).

Definition str_of_nat (n : nat) : str := str_of_N (N.of_nat n).

(** [str(number)] for a value that is an [int] or [None]. *)
Definition str_of_number (n : option N) : str :=
  match n with Some k => str_of_N k | None => py "None" end.

(** ** Regular expressions of the source *)

Definition not_nl (c : ascii) : bool := negb (Ascii.eqb c nl).

(** [(.+)$] at the current position: the greedy run of characters other
    than line feed must be non-empty and must end the string, or stand
    just before a final line feed.  Returns the group. *)
Definition match_rest (s : str) : option str :=
  let (x, r) := span not_nl s in
  match x, r with
  | [], _ => None
  | _, [] => Some x
  | _, [c] => Some x    (* [c] is the line feed: [$] before a final newline *)
  | _, _ => None
  end.

(** [#{1,6}] followed by [\s]: the number of leading [#] (1 to 6) when the
    character after them is a white space, and the text after that white
    space. A [#] is not a white space, so the count is the whole run. *)
Definition match_hashes (s : str) : option (nat * str) :=
  let (h, r) := span (Ascii.eqb hash) s in
  match r with
  | c :: r' =>
      if (1 <=? length h) && (length h <=? 6) && isspace c
      then Some (length h, r') else None
  | [] => None
  end.

(** [re.match(r'^#{1,6}\s', s)] is not [None]. *)
Definition is_header (s : str) : bool :=
  match match_hashes s with Some _ => true | None => false end.

(** [re.match(r'^(#{1,6})\s(.+)$', s)]: the two groups, as
    ([len(group(1))], [group(2)]). *)
Definition match_header (s : str) : option (nat * str) :=
  match match_hashes s with
  | Some (level, r) =>
      match match_rest r with
      | Some text => Some (level, text)
      | None => None
      end
  | None => None
  end.

(** [\d+\.\s]: the digits and the text after the white space. *)
Definition match_number (s : str) : option (str * str) :=
  let (d, r) := span isdigit s in
  match d, r with
  | _ :: _, dot :: c :: r' =>
      if Ascii.eqb dot "."%char && isspace c then Some (d, r') else None
  | _, _ => None
  end.

(** [re.match(r'^\d+\.\s', s)] is not [None]. *)
Definition is_ordered (s : str) : bool :=
  match match_number s with Some _ => true | None => false end.

(** [re.match(r'^(\d+)\.\s(.+)$', s)]: the two groups. *)
Definition match_ordered (s : str) : option (str * str) :=
  match match_number s with
  | Some (d, r) =>
      match match_rest r with
      | Some text => Some (d, text)
      | None => None
      end
  | None => None
  end.

(** ** Inline formatter *)

(** [.*?\*\*] : the shortest run without line feed that is followed by
    two stars; returns the run and the text after the two stars. *)
Fixpoint until_stars2 (s : str) : option (str * str) :=
  match s with
  | c :: t =>
      if startswith [star; star] s then Some ([], tl t)
      else if Ascii.eqb c nl then None
      else match until_stars2 t with
           | Some (x, r) => Some (c :: x, r)
           | None => None
           end
  | [] => None
  end.

(** [.*?\*] : the same with one star. *)
Fixpoint until_star (s : str) : option (str * str) :=
  match s with
  | c :: t =>
      if Ascii.eqb c star then Some ([], t)
      else if Ascii.eqb c nl then None
      else match until_star t with
           | Some (x, r) => Some (c :: x, r)
           | None => None
           end
  | [] => None
  end.

(** [\*\*(.*?)\*\*] matched at the start of [s]: group 1 and the text
    after the match. *)
Definition match_bold (s : str) : option (str * str) :=
  if startswith [star; star] s then until_stars2 (skipn 2 s) else None.

(** [\*(.*?)\*] matched at the start of [s]. *)
Definition match_italic (s : str) : option (str * str) :=
  match s with
  | c :: t => if Ascii.eqb c star then until_star t else None
  | [] => None
  end.

Lemma until_stars2_shorter s x r :
  until_stars2 s = Some (x, r) -> length r < length s.
Proof.
  revert x r; induction s as [|c t IH]; intros x r; [discriminate|].
  cbn [until_stars2].
  destruct (startswith [star; star] (c :: t)).
  - intros H; inversion H; subst. destruct t; simpl; lia.
  - destruct (Ascii.eqb c nl); [discriminate|].
    destruct (until_stars2 t) as [[x' r']|] eqn:E; [|discriminate].
    intros H; inversion H; subst. specialize (IH _ _ eq_refl). simpl; lia.
Qed.

Lemma until_star_shorter s x r :
  until_star s = Some (x, r) -> length r < length s.
Proof.
  revert x r; induction s as [|c t IH]; intros x r; simpl; [discriminate|].
  destruct (Ascii.eqb c star).
  - intros H; inversion H; subst; lia.
  - destruct (Ascii.eqb c nl); [discriminate|].
    destruct (until_star t) as [[x' r']|] eqn:E; [|discriminate].
    intros H; inversion H; subst. specialize (IH _ _ eq_refl). lia.
Qed.

Lemma match_bold_shorter s x r :
  match_bold s = Some (x, r) -> length r < length s.
Proof.
  unfold match_bold. destruct (startswith [star; star] s) eqn:E; [|discriminate].
  intros H. apply until_stars2_shorter in H.
  destruct s as [|a [|b s']]; simpl in *; lia.
Qed.

Lemma match_italic_shorter s x r :
  match_italic s = Some (x, r) -> length r < length s.
Proof.
  destruct s as [|c t]; simpl; [discriminate|].
  destruct (Ascii.eqb c star); [|discriminate].
  intros H. apply until_star_shorter in H. lia.
Qed.

(** [re.sub(pattern, opening + r'\1' + closing, s)] for a pattern that
    never matches the empty string: scan from the left, replace a match
    and go on after it, otherwise copy one character. *)
Section ReSub.
Variable matcher : str -> option (str * str).
Hypothesis matcher_shorter :
    forall s x r, matcher s = Some (x, r) -> length r < length s.
Variables opening closing : str.

Equations? re_sub (s : str) : str by wf (length s) lt :=
    re_sub [] := [];
    re_sub (c :: t) with inspect (matcher (c :: t)) := {
      | exist _ (Some (x, r)) e := opening ++ x ++ closing ++ re_sub r;
      | exist _ None _ := c :: re_sub t }.
  Proof. apply matcher_shorter in e. exact e. Qed.
End ReSub.

(** [_format_inline] *)
Definition _format_inline (text : str) : str :=
  let text := re_sub match_bold match_bold_shorter
                (py "<strong>") (py "</strong>") text in
  let text := re_sub match_italic match_italic_shorter
                (py "<em>") (py "</em>") text in
  text.

(** ** Fragments *)

Inductive list_type := ol | ul.

Definition list_type_eqb (a b : list_type) : bool :=
  match a, b with ol, ol | ul, ul => true | _, _ => false end.

(** The string ['ol'] or ['ul']. *)
Definition name_of (t : list_type) : str :=
  match t with ol => py "ol" | ul => py "ul" end.

(** One element of the lists the methods return. *)
Inductive fragment :=
| OlOpen (number : option N)           (* f"<ol start='{number}'>" *)
| ListOpen (t : list_type)             (* f"<{list_type}>" *)
| LiValue (number : option N)          (* f"<li value='{number}'>" *)
| Li                                   (* "<li>" *)
| LiClose                              (* "</li>" *)
| ListClose (t : list_type)            (* f"</{list_type}>" *)
| Header (level : nat) (content : str) (* f"<h{level}>{content}</h{level}>" *)
| Br                                   (* "<br>" *)
| Text (content : str).                (* formatted text of a line *)

Definition render (f : fragment) : str :=
  match f with
  | OlOpen n => py "<ol start='" ++ str_of_number n ++ py "'>"
  | ListOpen t => py "<" ++ name_of t ++ py ">"
  | LiValue n => py "<li value='" ++ str_of_number n ++ py "'>"
  | Li => py "<li>"
  | LiClose => py "</li>"
  | ListClose t => py "</" ++ name_of t ++ py ">"
  | Header level content =>
      py "<h" ++ str_of_nat level ++ py ">" ++ content
      ++ py "</h" ++ str_of_nat level ++ py ">"
  | Br => py "<br>"
  | Text content => content
  end.

(** The concatenation, in order, of the strings of a fragment list. *)
Definition render_all (out : list fragment) : str := concat (map render out).

(** ** State *)

(** An element [[list_type, indent, last_number]] of [self.list_stack]. *)
Record Frame := mkFrame {
  frame_type : list_type;
  frame_indent : nat;
  last_number : option N
}.

Record State := mkState {
  buffer : str;
  current_line : str;
  list_stack : list Frame;       (* head = [self.list_stack[-1]] *)
  in_list_item : bool
}.

(** [__init__] *)
Definition init : State := mkState [] [] [] false.

Definition set_buffer (b : str) (s : State) : State :=
  mkState b (current_line s) (list_stack s) (in_list_item s).
Definition set_current_line (c : str) (s : State) : State :=
  mkState (buffer s) c (list_stack s) (in_list_item s).
Definition set_list_stack (k : list Frame) (s : State) : State :=
  mkState (buffer s) (current_line s) k (in_list_item s).
Definition set_in_list_item (b : bool) (s : State) : State :=
  mkState (buffer s) (current_line s) (list_stack s) b.

(** ** Methods as state transformers that may raise *)

Inductive exn := AttributeError | TypeError | IndexError | ValueError.

Inductive Res (A : Type) :=
| Ok (a : A) (s : State)
| Raise (e : exn) (s : State).
Arguments Raise {A} e s.

Definition M (A : Type) := State -> Res A.

Definition ret {A} (a : A) : M A := fun s => Ok a s.
Definition bind {A B} (m : M A) (k : A -> M B) : M B :=
  fun s => match m s with
           | Ok a s' => k a s'
           | Raise e s' => Raise e s'
           end.
Definition raise {A} (e : exn) : M A := fun s => Raise e s.
(** Reading an attribute of [self], and updating [self]. *)
Definition gets {A} (f : State -> A) : M A := fun s => Ok (f s) s.
Definition modify (f : State -> State) : M unit := fun s => Ok tt (f s).

Declare Scope py_scope.
Delimit Scope py_scope with py.
Notation "x <- c ;; k" := (bind c (fun x => k))
  (at level 100, c at next level, right associativity) : py_scope.
Notation "c ;;; k" := (bind c (fun _ => k))
  (at level 100, right associativity) : py_scope.
Open Scope py_scope.

(** The state a call leaves behind, returned or raised. *)
Definition final {A} (r : Res A) : State :=
  match r with Ok _ s => s | Raise _ s => s end.

(** The value a call returns, if it returns. *)
Definition returned {A} (r : Res A) : option A :=
  match r with Ok a _ => Some a | Raise _ _ => None end.

(** ** Closing lists *)

(** [_close_list]: pops the innermost frame and returns its closing pair. *)
Definition _close_list : M (list fragment) :=
  stack <- gets list_stack ;;
  match stack with
  | f :: rest =>
      modify (set_list_stack rest) ;;;
      ret [LiClose; ListClose (frame_type f)]
  | [] => ret []
  end.

(** The loop
    [while self.list_stack and cond(self.list_stack[-1]):
         result.extend(self._close_list())].
    Every iteration pops one frame, so [n] iterations are enough when the
    stack holds at most [n] frames; the callers pass the stack's length. *)
Fixpoint close_while (cond : Frame -> bool) (n : nat) : M (list fragment) :=
  match n with
  | S n' =>
      stack <- gets list_stack ;;
      match stack with
      | f :: _ =>
          if cond f then
            pair <- _close_list ;;
            more <- close_while cond n' ;;
            ret (pair ++ more)
          else ret []
      | [] => ret []
      end
  | 0 => ret []
  end.

(** [self.list_stack[-1][1] > indent] *)
Definition deeper (indent : nat) (f : Frame) : bool :=
  indent <? frame_indent f.

(** [_close_lists_if_needed] *)
Definition _close_lists_if_needed (indent : nat) : M (list fragment) :=
  stack <- gets list_stack ;;
  close_while (deeper indent) (length stack).

(** [_close_lists] *)
Definition _close_lists : M (list fragment) :=
  stack <- gets list_stack ;;
  close_while (fun _ => true) (length stack).

(** ** The list-item handler *)

(** [not self.list_stack or self.list_stack[-1][1] < indent
     or self.list_stack[-1][0] != list_type] *)
Definition starts_new_list (stack : list Frame) (t : list_type) (indent : nat)
  : bool :=
  match stack with
  | [] => true
  | f :: _ =>
      (frame_indent f <? indent) || negb (list_type_eqb (frame_type f) t)
  end.

(** [number != last_number + 1] once [last_number] is an [int]. *)
Definition not_next (number : option N) (last : N) : bool :=
  match number with
  | Some n => negb (N.eqb n (last + 1))
  | None => true
  end.

(** [_handle_list_item].  [number] is an [int] or [None]. *)
Definition _handle_list_item (t : list_type) (number : option N)
    (content : str) (indent : nat) : M (list fragment) :=
  stack <- gets list_stack ;;
  closed <- close_while (deeper indent) (length stack) ;;
  stack <- gets list_stack ;;
  opened <-
    (if starts_new_list stack t indent then
       modify (set_list_stack
                 (mkFrame t indent (match t with ol => number | ul => None end)
                  :: stack)) ;;;
       ret [match t with ol => OlOpen number | ul => ListOpen t end]
     else ret []) ;;
  item <-
    (match t with
     | ol =>
         stack <- gets list_stack ;;
         match stack with
         | f :: rest =>
             match last_number f with
             | Some last =>
                 modify (set_list_stack
                           (mkFrame (frame_type f) (frame_indent f) number
                            :: rest)) ;;;
                 ret [if not_next number last then LiValue number else Li]
             | None => raise TypeError        (* [None + 1] *)
             end
         | [] => raise IndexError             (* [self.list_stack[-1]] *)
         end
     | ul => ret [Li]
     end) ;;
  modify (set_in_list_item true) ;;;
  ret (closed ++ opened ++ item ++ [Text content]).

(** ** Line handlers *)

(** [_process_header].  The list [_close_lists()] returns is not used. *)
Definition _process_header (line : str) : M (list fragment) :=
  _close_lists ;;;
  match match_header line with
  | Some (level, text) => ret [Header level (_format_inline text)]
  | None => raise AttributeError             (* [match] is [None] *)
  end.

(** [_process_ordered_list_item] *)
Definition _process_ordered_list_item (line : str) (indent : nat)
  : M (list fragment) :=
  match match_ordered line with
  | Some (digits, text) =>
      if exceeds_int_limit digits then
        raise ValueError                     (* [int(match.group(1))] *)
      else
        _handle_list_item ol (Some (int_of_digits digits))
          (_format_inline text) indent
  | None => raise AttributeError             (* [match] is [None] *)
  end.

(** [_process_unordered_list_item] *)
Definition _process_unordered_list_item (line : str) (indent : nat)
  : M (list fragment) :=
  _handle_list_item ul None (_format_inline (skipn 2 line)) indent.

(** [_process_empty_line] *)
Definition _process_empty_line : M (list fragment) :=
  in_item <- gets in_list_item ;;
  (if in_item then modify (set_in_list_item false) else ret tt) ;;;
  ret [Br].

(** [_process_text].  The list [_close_lists_if_needed(indent)] returns is
    not used. *)
Definition _process_text (line : str) (indent : nat) : M (list fragment) :=
  in_item <- gets in_list_item ;;
  if in_item then
    modify (set_in_list_item false) ;;;
    ret [Text (py " " ++ _format_inline line)]
  else
    _close_lists_if_needed indent ;;;
    ret [Text (_format_inline line)].

(** [_process_line] *)
Definition _process_line (line : str) : M (list fragment) :=
  let stripped_line := lstrip line in
  let indent := length line - length stripped_line in
  if is_header stripped_line then
    _process_header stripped_line
  else if is_ordered stripped_line then
    _process_ordered_list_item stripped_line indent
  else if startswith (py "- ") stripped_line then
    _process_unordered_list_item stripped_line indent
  else if str_eqb (strip stripped_line) [] then
    _process_empty_line
  else
    _process_text stripped_line indent.

(** ** Chunk accumulator and flush *)

(** The loop [for line in new_lines[:-1]] of [_process_buffer]. *)
Fixpoint process_complete_lines (lines : list str) : M (list fragment) :=
  match lines with
  | line :: rest =>
      modify (fun s => set_current_line (current_line s ++ line) s) ;;;
      current <- gets current_line ;;
      out <- _process_line current ;;
      modify (set_current_line []) ;;;
      more <- process_complete_lines rest ;;
      ret (out ++ more)
  | [] => ret []
  end.

(** [_process_buffer] *)
Definition _process_buffer : M (list fragment) :=
  text <- gets buffer ;;
  let new_lines := split_nl text in
  processed <- process_complete_lines (removelast new_lines) ;;
  modify (fun s => set_current_line (current_line s ++ last new_lines []) s) ;;;
  modify (set_buffer []) ;;;
  current <- gets current_line ;;
  if 80 <? length current then
    out <- _process_line current ;;
    modify (set_current_line []) ;;;
    ret (processed ++ out)
  else ret processed.

(** [add_chunk] *)
Definition add_chunk (chunk : str) : M (list fragment) :=
  modify (fun s => set_buffer (buffer s ++ chunk) s) ;;;
  _process_buffer.

(** [flush] *)
Definition flush : M (list fragment) :=
  current <- gets current_line ;;
  chunks <- (match current with
             | [] => ret []
             | _ :: _ => _process_line current
             end) ;;
  closing <- _close_lists ;;
  modify (set_current_line []) ;;;
  ret (chunks ++ closing).

(** ** A whole stream *)

(** [add_chunk] on each chunk in turn, the returned lists concatenated. *)
Fixpoint add_chunks (chunks : list str) : M (list fragment) :=
  match chunks with
  | c :: rest =>
      out <- add_chunk c ;;
      more <- add_chunks rest ;;
      ret (out ++ more)
  | [] => ret []
  end.

(** The chunks, then [flush()]. *)
Definition feed (chunks : list str) : M (list fragment) :=
  out <- add_chunks chunks ;;
  closing <- flush ;;
  ret (out ++ closing).

(** A chunk written as the lines it is made of, each ended by a line feed. *)
Definition lines (ls : list string) : str :=
  concat (map (fun l => py l ++ [nl]) ls).

(** * [formatCSVFile] of [helpers/loaddocs/convert.py] *)

(** A line boundary of [str.splitlines] below 256: LF, VT, FF, CR, FS, GS,
    RS and NEL. *)
Definition is_linebreak (c : ascii) : bool :=
  let n := nat_of_ascii c in
  ((10 <=? n) && (n <=? 13)) || ((28 <=? n) && (n <=? 30)) || (n =? 133).

Definition cr : ascii := ascii_of_nat 13.

(** [s.splitlines()]: the lines without their boundaries; CR LF is one
    boundary, and a boundary at the end of the text opens no last line. *)
Fixpoint splitlines (s : str) : list str :=
  match s with
  | [] => []
  | c :: t =>
      if is_linebreak c then
        [] :: match t with
              | c2 :: t2 =>
                  if Ascii.eqb c cr && Ascii.eqb c2 nl then splitlines t2
                  else splitlines t
              | [] => []
              end
      else match splitlines t with
           | h :: r => (c :: h) :: r
           | [] => [[c]]
           end
  end.

(** [p in s] for two strings. *)
Fixpoint contains (p s : str) : bool :=
  startswith p s
  || match s with
     | _ :: t => contains p t
     | [] => false
     end.

(** The loop that fills [linesRemove]: the indices, from [index] on, of the
    lines that contain ["NaN"]. *)
Fixpoint nan_indices (index : nat) (ls : list str) : list nat :=
  match ls with
  | line :: rest =>
      if contains (py "NaN") line
      then index :: nan_indices (S index) rest
      else nan_indices (S index) rest
  | [] => []
  end.

(** [[j for i, j in enumerate(lines) if i not in linesRemove]] *)
Fixpoint keep_by_index (index : nat) (linesRemove : list nat)
    (ls : list str) : list str :=
  match ls with
  | j :: rest =>
      if existsb (Nat.eqb index) linesRemove
      then keep_by_index (S index) linesRemove rest
      else j :: keep_by_index (S index) linesRemove rest
  | [] => []
  end.

(** ["\n".join(lines)] *)
Fixpoint join_nl (ls : list str) : str :=
  match ls with
  | [] => []
  | [l] => l
  | l :: rest => l ++ nl :: join_nl rest
  end.

(** The class [[\t\r\f\v ]]. *)
Definition is_blank (c : ascii) : bool :=
  let n := nat_of_ascii c in
  (n =? 9) || (n =? 13) || (n =? 12) || (n =? 11) || (n =? 32).

Fixpoint drop_blanks (s : str) : str :=
  match s with
  | c :: t => if is_blank c then drop_blanks t else s
  | [] => []
  end.

(** [[\t\r\f\v ]+] matched at the start of [s]: no group, and the text
    after the run. *)
Definition match_blanks (s : str) : option (str * str) :=
  match s with
  | c :: t => if is_blank c then Some ([], drop_blanks t) else None
  | [] => None
  end.

Lemma drop_blanks_length s : length (drop_blanks s) <= length s.
Proof.
  induction s as [|c t IH]; [cbn; lia|].
  cbn [drop_blanks]. destruct (is_blank c); cbn in *; lia.
Qed.

Lemma match_blanks_shorter s x r :
  match_blanks s = Some (x, r) -> length r < length s.
Proof.
  destruct s as [|c t]; [discriminate|]. cbn [match_blanks].
  destruct (is_blank c); [|discriminate].
  intros H; inversion H; subst.
  pose proof (drop_blanks_length t). cbn; lia.
Qed.

(** [re.sub(r"[\t\r\f\v ]+", " ", s)] *)
Definition collapse_blanks (s : str) : str :=
  re_sub match_blanks match_blanks_shorter (py " ") [] s.

(** [formatCSVFile] *)
Definition formatCSVFile (sectorStats : str) : str :=
  let lines := splitlines sectorStats in
  let linesRemove := nan_indices 0 lines in
  let lines := keep_by_index 0 linesRemove lines in
  let sectorStats := join_nl lines in
  collapse_blanks (strip sectorStats).

(** * Definitions for the properties *)

(** ** Steps on the list stack and the item flag

    The handlers read and write only [list_stack] and [in_list_item]; on
    these two attributes a line is a step with an outcome. *)

(** The closing pairs of the frames a closing loop pops, innermost first,
    and the stack it leaves. *)
Fixpoint pop_while (cond : Frame -> bool) (stack : list Frame)
  : list fragment * list Frame :=
  match stack with
  | f :: rest =>
      if cond f then
        let (out, left) := pop_while cond rest in
        (LiClose :: ListClose (frame_type f) :: out, left)
      else ([], stack)
  | [] => ([], [])
  end.

(** The closing pairs of every frame of a stack, innermost first: what
    [_close_lists] returns. *)
Definition close_all (stack : list Frame) : list fragment :=
  fst (pop_while (fun _ => true) stack).

Inductive outcome :=
| Done (out : list fragment) (stack : list Frame) (in_item : bool)
| Failed (e : exn) (stack : list Frame) (in_item : bool).

(** The result of a method that leaves [buffer] and [current_line] as
    [b] and [c]. *)
Definition with_text (b c : str) (o : outcome) : Res (list fragment) :=
  match o with
  | Done out k i => Ok out (mkState b c k i)
  | Failed e k i => Raise e (mkState b c k i)
  end.

(** What a result shows of the stack and the flag. *)
Definition core_of (r : Res (list fragment)) : outcome :=
  match r with
  | Ok out s => Done out (list_stack s) (in_list_item s)
  | Raise e s => Failed e (list_stack s) (in_list_item s)
  end.

Definition outcome_stack (o : outcome) : list Frame :=
  match o with Done _ k _ => k | Failed _ k _ => k end.

Definition outcome_out (o : outcome) : option (list fragment) :=
  match o with Done out _ _ => Some out | Failed _ _ _ => None end.

Definition item_step (t : list_type) (number : option N) (content : str)
    (indent : nat) (stack : list Frame) (i : bool) : outcome :=
  let (closed, left) := pop_while (deeper indent) stack in
  let fresh := starts_new_list left t indent in
  let stack1 :=
    if fresh
    then mkFrame t indent (match t with ol => number | ul => None end) :: left
    else left in
  let opened :=
    if fresh then [match t with ol => OlOpen number | ul => ListOpen t end]
    else [] in
  match t with
  | ul => Done (closed ++ opened ++ [Li] ++ [Text content]) stack1 true
  | ol =>
      match stack1 with
      | f :: rest =>
          match last_number f with
          | Some last =>
              Done (closed ++ opened
                    ++ [if not_next number last then LiValue number else Li]
                    ++ [Text content])
                   (mkFrame (frame_type f) (frame_indent f) number :: rest)
                   true
          | None => Failed TypeError stack1 i
          end
      | [] => Failed IndexError stack1 i
      end
  end.

Definition line_step (line : str) (stack : list Frame) (i : bool) : outcome :=
  let stripped_line := lstrip line in
  let indent := length line - length stripped_line in
  if is_header stripped_line then
    match match_header stripped_line with
    | Some (level, text) => Done [Header level (_format_inline text)] [] i
    | None => Failed AttributeError [] i
    end
  else if is_ordered stripped_line then
    match match_ordered stripped_line with
    | Some (digits, text) =>
        if exceeds_int_limit digits then Failed ValueError stack i
        else
          item_step ol (Some (int_of_digits digits)) (_format_inline text)
            indent stack i
    | None => Failed AttributeError stack i
    end
  else if startswith (py "- ") stripped_line then
    item_step ul None (_format_inline (skipn 2 stripped_line)) indent stack i
  else if str_eqb (strip stripped_line) [] then
    Done [Br] stack false
  else if i then
    Done [Text (py " " ++ _format_inline stripped_line)] stack false
  else
    Done [Text (_format_inline stripped_line)]
         (snd (pop_while (deeper indent) stack)) false.

(** Going on after an outcome, the outputs appended. *)
Definition and_then (o : outcome) (k : list Frame -> bool -> outcome)
  : outcome :=
  match o with
  | Done out stack i =>
      match k stack i with
      | Done out' stack' i' => Done (out ++ out') stack' i'
      | Failed e stack' i' => Failed e stack' i'
      end
  | Failed e stack i => Failed e stack i
  end.

(** The lines of a list, dispatched in order. *)
Fixpoint run_lines (ls : list str) (stack : list Frame) (i : bool) : outcome :=
  match ls with
  | l :: rest => and_then (line_step l stack i) (run_lines rest)
  | [] => Done [] stack i
  end.

(** [flush()] after the chunks closes what the lines left open. *)
Definition finish (o : outcome) : outcome :=
  and_then o (fun k i => Done (close_all k) [] i).

(** ** The lines of a stream *)

(** The complete lines of a chunk as they are dispatched: the pending
    [current_line] is put before the first of them. *)
Definition glue (cur : str) (ls : list str) : list str :=
  match ls with
  | l :: rest => (cur ++ l) :: rest
  | [] => []
  end.

(** The line left pending by [_process_buffer] before the length test. *)
Definition pending (cur text : str) : str :=
  (match removelast (split_nl text) with [] => cur | _ :: _ => [] end)
  ++ last (split_nl text) [].

(** The lines one [add_chunk] dispatches when [current_line] is [cur] and
    the buffer with the new chunk is [text]: the complete lines, and the
    pending line when it is longer than 80. *)
Definition chunk_lines (cur text : str) : list str :=
  glue cur (removelast (split_nl text))
  ++ (if 80 <? length (pending cur text) then [pending cur text] else []).

(** The [current_line] it leaves. *)
Definition chunk_rest (cur text : str) : str :=
  if 80 <? length (pending cur text) then [] else pending cur text.

(** The lines [flush] dispatches. *)
Definition residual (cur : str) : list str :=
  match cur with [] => [] | _ :: _ => [cur] end.

(** The lines dispatched by [add_chunk] on each chunk and then [flush()],
    when [current_line] is [cur] and [buffer] is empty. *)
Fixpoint dispatched (cur : str) (chunks : list str) : list str :=
  match chunks with
  | ch :: rest => chunk_lines cur ch ++ dispatched (chunk_rest cur ch) rest
  | [] => residual cur
  end.



(** ** Calls and shapes of the stack *)

(** The calls a caller can make on a renderer. *)
Inductive op := AddChunk (chunk : str) | Flush.

Definition run_op (o : op) (s : State) : State :=
  match o with
  | AddChunk chunk => final (add_chunk chunk s)
  | Flush => final (flush s)
  end.

(** The state after a sequence of calls, first call first; a call that
    raises leaves the state it had reached. *)
Definition run_ops (ops : list op) (s : State) : State :=
  fold_left (fun s o => run_op o s) ops s.

(** Indents strictly increasing from the bottom of the stack to its top
    (the head). *)
Fixpoint strictly_nested (stack : list Frame) : Prop :=
  match stack with
  | f :: (g :: _) as rest =>
      frame_indent g < frame_indent f /\ strictly_nested rest
  | _ => True
  end.

(** At most one open frame for a kind and an indent. *)
Definition one_frame_per_kind_and_indent (stack : list Frame) : Prop :=
  NoDup (map (fun f => (frame_type f, frame_indent f)) stack).

(** Indents never decreasing from the bottom to the top, and different
    kinds for two neighbours of equal indent. *)
Fixpoint nested (stack : list Frame) : Prop :=
  match stack with
  | f :: (g :: _) as rest =>
      (frame_indent g < frame_indent f
       \/ (frame_indent g = frame_indent f /\ frame_type g <> frame_type f))
      /\ nested rest
  | _ => True
  end.

(** The frames of ordered lists hold a last number. *)
Definition well_typed (stack : list Frame) : Prop :=
  Forall (fun f => frame_type f = ol -> last_number f <> None) stack.

(** ** Tags and stars *)

(** The number of [*] of a line. *)
Definition stars (s : str) : nat := count_occ ascii_dec s star.

Definition is_list_open (f : fragment) : bool :=
  match f with OlOpen _ | ListOpen _ => true | _ => false end.
Definition is_list_close (f : fragment) : bool :=
  match f with ListClose _ => true | _ => false end.
Definition is_li_open (f : fragment) : bool :=
  match f with Li | LiValue _ => true | _ => false end.
Definition is_li_close (f : fragment) : bool :=
  match f with LiClose => true | _ => false end.

(** The number of fragments of one sort in a list of fragments. *)
Definition count (p : fragment -> bool) (out : list fragment) : nat :=
  length (filter p out).

(** Tag balance as the specification states it: as many list closings as
    list openings, and as many [</li>] as [<li>]. *)
Definition tag_balance (out : list fragment) : Prop :=
  count is_list_open out = count is_list_close out /\
  count is_li_open out = count is_li_close out.

(** The frames a line pops without returning their closing pairs: all of
    them for a header, the deeper ones for a plain line that does not
    continue an item. *)
Definition drops (line : str) (stack : list Frame) (i : bool) : nat :=
  let stripped_line := lstrip line in
  let indent := length line - length stripped_line in
  if is_header stripped_line then length stack
  else if is_ordered stripped_line then 0
  else if startswith (py "- ") stripped_line then 0
  else if str_eqb (strip stripped_line) [] then 0
  else if i then 0
  else length stack - length (snd (pop_while (deeper indent) stack)).

(** The same over the lines of a run. *)
Fixpoint dropped (ls : list str) (stack : list Frame) (i : bool) : nat :=
  match ls with
  | l :: rest =>
      drops l stack i
      + match line_step l stack i with
        | Done _ stack' i' => dropped rest stack' i'
        | Failed _ _ _ => 0
        end
  | [] => 0
  end.

(** What a list of fragments and the stack left behind add up to, against
    the stack before: every frame is opened by one opening tag, and leaves
    by one closing pair or silently. *)
Record accounted (before : list Frame) (silent : nat) (out : list fragment)
    (after : list Frame) : Prop := {
  acc_frames :
    count is_list_open out + length before
    = count is_list_close out + length after + silent;
  acc_pairs : count is_li_close out = count is_list_close out;
  acc_items : count is_list_open out <= count is_li_open out
}.

(** ** Calls, lines and patterns of the further properties *)

(** A call as a method of the renderer. *)
Definition call (o : op) : M (list fragment) :=
  match o with
  | AddChunk chunk => add_chunk chunk
  | Flush => flush
  end.

(** [_process_line] on each line of a list in turn, the returned lists
    concatenated. *)
Fixpoint process_each (ls : list str) : M (list fragment) :=
  match ls with
  | l :: rest =>
      out <- _process_line l ;;
      more <- process_each rest ;;
      ret (out ++ more)
  | [] => ret []
  end.

(** Text that can stand between two markers: no star and no line feed. *)
Definition inline_text (x : str) : bool :=
  forallb (fun c => negb (Ascii.eqb c star) && negb (Ascii.eqb c nl)) x.

(** A pattern with no blank in it. *)
Definition solid (p : str) : bool := forallb (fun c => negb (is_blank c)) p.

(** No tab, CR, FF or VT, and no two blanks in a row. *)
Fixpoint single_spaced (o : str) : bool :=
  match o with
  | a :: (b :: _) as t =>
      (negb (is_blank a) || Ascii.eqb a " "%char)
      && negb (is_blank a && is_blank b) && single_spaced t
  | [a] => negb (is_blank a) || Ascii.eqb a " "%char
  | [] => true
  end.

(** No line boundary but the line feed. *)
Definition only_nl_breaks (o : str) : bool :=
  forallb (fun c => negb (is_linebreak c) || Ascii.eqb c nl) o.

(** No white space at the start, none at the end. *)
Definition starts_solid (o : str) : bool := negb (isspace (hd "a"%char o)).
Definition ends_solid (o : str) : bool := negb (isspace (last o "a"%char)).

Definition no_break (l : str) : bool := forallb (fun c => negb (is_linebreak c)) l.

(** A line with no line feed. *)
Definition no_nl (l : str) : bool := forallb not_nl l.

(** A marker with one white space after it and nothing else: one to six
    [#], or digits and a dot. *)
Definition bare_marker (s : str) : Prop :=
  (exists k c,
      1 <= k <= 6 /\ isspace c = true /\ s = repeat hash k ++ [c]) \/
  (exists d c,
      d <> [] /\ forallb isdigit d = true /\ isspace c = true /\
      s = d ++ py "." ++ [c]).

(** An ordered item with text whose number has more digits than [int]
    converts. *)
Definition oversized_number (s : str) : Prop :=
  exists d c text,
    int_max_str_digits < length d /\ forallb isdigit d = true /\
    isspace c = true /\ text <> [] /\ s = d ++ py "." ++ [c] ++ text.

(** * Properties *)

(** ** The source on small inputs *)

Example classify_examples :
  is_header (py "### x") = true /\ is_header (py "####### x") = false /\
  is_header (py "#x") = false /\ is_ordered (py "12. x") = true /\
  is_ordered (py "12.x") = false /\
  match_header (py "##  x") = Some (2, py " x") /\
  match_ordered (py "007. x") = Some (py "007", py "x") /\
  int_of_digits (py "007") = 7%N /\ str_of_N 0 = py "0" /\
  str_of_N 120 = py "120" /\
  split_nl (py "a" ++ [nl] ++ [nl] ++ py "b") = [py "a"; []; py "b"] /\
  split_nl [] = [[]].
Proof. vm_compute. repeat split. Qed.

Example format_examples :
  _format_inline (py "***a***") = py "<strong><em>a</strong></em>" /\
  _format_inline (py "****") = py "<strong></strong>" /\
  _format_inline (py "a*" ++ [nl] ++ py "*b") = py "a*" ++ [nl] ++ py "*b" /\
  _format_inline (py "*a* b *c") = py "<em>a</em> b *c".
Proof. vm_compute. repeat split. Qed.

(** Scenarios of the specification the renderer meets as written. *)
Example scenario_A :
  option_map render_all (returned (feed [lines ["# Title"]] init))
  = Some (py "<h1>Title</h1>").
Proof. vm_compute. reflexivity. Qed.

Example scenario_D :
  option_map render_all (returned (feed [lines ["- a"; "  - b"]] init))
  = Some (py "<ul><li>a<ul><li>b</li></ul></li></ul>").
Proof. vm_compute. reflexivity. Qed.

Example scenario_E :
  option_map render_all (returned (feed [lines ["**hi** *there*"]] init))
  = Some (py "<strong>hi</strong> <em>there</em>").
Proof. vm_compute. reflexivity. Qed.

(** ** Tactics for the methods *)

Ltac run := unfold bind, gets, modify, ret, raise; cbn.

(** One [bind] of the goal, and the attribute reads and writes it exposes. *)
Ltac step :=
  unfold bind at 1;
  cbv beta iota delta [gets modify ret raise set_current_line set_buffer
                       set_list_stack set_in_list_item
                       buffer current_line list_stack in_list_item].

(** ** What the closing loops do *)

Lemma close_while_run cond n b c stack i :
  length stack <= n ->
  close_while cond n (mkState b c stack i)
  = Ok (fst (pop_while cond stack)) (mkState b c (snd (pop_while cond stack)) i).
Proof.
  revert stack; induction n as [|n IH]; intros stack Hn.
  - destruct stack; [reflexivity | simpl in Hn; lia].
  - destruct stack as [|f rest]; [reflexivity|].
    cbn [close_while pop_while]. run.
    destruct (cond f); [|reflexivity].
    unfold set_list_stack; cbn.
    rewrite IH by (simpl in Hn; lia).
    destruct (pop_while cond rest); reflexivity.
Qed.

Lemma pop_while_all stack :
  snd (pop_while (fun _ => true) stack) = [].
Proof.
  induction stack as [|f rest IH]; [reflexivity|].
  cbn. destruct (pop_while _ rest); assumption.
Qed.

Lemma _close_lists_run b c stack i :
  _close_lists (mkState b c stack i)
  = Ok (fst (pop_while (fun _ => true) stack)) (mkState b c [] i).
Proof.
  unfold _close_lists. run.
  rewrite close_while_run by lia. now rewrite pop_while_all.
Qed.

Lemma _close_lists_if_needed_run indent b c stack i :
  _close_lists_if_needed indent (mkState b c stack i)
  = Ok (fst (pop_while (deeper indent) stack))
       (mkState b c (snd (pop_while (deeper indent) stack)) i).
Proof.
  unfold _close_lists_if_needed. run. now rewrite close_while_run by lia.
Qed.

(** ** What one line does to the list stack and the item flag *)

Lemma _handle_list_item_run t number content indent b c stack i :
  _handle_list_item t number content indent (mkState b c stack i)
  = with_text b c (item_step t number content indent stack i).
Proof.
  unfold _handle_list_item, item_step. run.
  rewrite close_while_run by lia.
  destruct (pop_while (deeper indent) stack) as [closed left]; cbn.
  destruct (starts_new_list left t indent); cbn.
  - destruct t; cbn; [destruct number|]; reflexivity.
  - destruct t; cbn; [|reflexivity].
    destruct left as [|f rest]; cbn; [reflexivity|].
    destruct (last_number f); reflexivity.
Qed.

Lemma _process_line_run line b c stack i :
  _process_line line (mkState b c stack i)
  = with_text b c (line_step line stack i).
Proof.
  unfold _process_line, line_step.
  destruct (is_header (lstrip line)).
  { unfold _process_header. unfold bind at 1. rewrite _close_lists_run.
    destruct (match_header (lstrip line)) as [[level text]|]; reflexivity. }
  destruct (is_ordered (lstrip line)).
  { unfold _process_ordered_list_item.
    destruct (match_ordered (lstrip line)) as [[digits text]|];
      [|reflexivity].
    destruct (exceeds_int_limit digits);
      [reflexivity | apply _handle_list_item_run]. }
  destruct (startswith (py "- ") (lstrip line)).
  { apply _handle_list_item_run. }
  destruct (str_eqb (strip (lstrip line)) []).
  { unfold _process_empty_line. run. destruct i; reflexivity. }
  unfold _process_text. unfold bind at 1, gets. cbn [in_list_item].
  destruct i; [reflexivity|].
  unfold bind at 1. now rewrite _close_lists_if_needed_run.
Qed.

Lemma and_then_assoc o f g :
  and_then (and_then o f) g = and_then o (fun k i => and_then (f k i) g).
Proof.
  destruct o as [out k i|]; cbn; [|reflexivity].
  destruct (f k i) as [out1 k1 i1|]; cbn; [|reflexivity].
  destruct (g k1 i1); cbn; [|reflexivity].
  now rewrite app_assoc.
Qed.

Lemma and_then_ext o f g :
  (forall k i, f k i = g k i) -> and_then o f = and_then o g.
Proof. intros H; destruct o; cbn; [rewrite H|]; reflexivity. Qed.

Lemma run_lines_app l1 l2 stack i :
  run_lines (l1 ++ l2) stack i = and_then (run_lines l1 stack i) (run_lines l2).
Proof.
  revert stack i; induction l1 as [|l r IH]; intros stack i; cbn.
  - destruct (run_lines l2 stack i); reflexivity.
  - rewrite and_then_assoc. apply and_then_ext. intros; apply IH.
Qed.

(** ** What the accumulator dispatches *)

Lemma glue_nil ls : glue [] ls = ls.
Proof. destruct ls; reflexivity. Qed.

Lemma process_complete_lines_core ls b c stack i :
  core_of (process_complete_lines ls (mkState b c stack i))
  = run_lines (glue c ls) stack i.
Proof.
  revert c stack i; induction ls as [|l rest IH]; intros c stack i;
    [reflexivity|].
  cbn [process_complete_lines glue run_lines].
  do 3 step. rewrite _process_line_run.
  destruct (line_step (c ++ l) stack i) as [out k' i'|e k' i']; cbn [with_text and_then];
    [|reflexivity].
  do 2 step.
  specialize (IH [] k' i'). rewrite glue_nil in IH.
  destruct (process_complete_lines rest (mkState b [] k' i')) as [o s|e s];
    cbn [core_of] in IH |- *; rewrite <- IH; reflexivity.
Qed.

Lemma process_complete_lines_text ls s out s' :
  process_complete_lines ls s = Ok out s' ->
  buffer s' = buffer s /\
  current_line s' = match ls with [] => current_line s | _ :: _ => [] end.
Proof.
  revert s out s'; induction ls as [|l rest IH]; intros [b c stack i] out s'.
  - cbn. unfold ret. intros H; inversion H; subst. split; reflexivity.
  - cbn [process_complete_lines].
    do 3 step. rewrite _process_line_run.
    destruct (line_step (c ++ l) stack i) as [o k' i'|e k' i']; cbn [with_text];
      [|discriminate].
    do 2 step.
    destruct (process_complete_lines rest (mkState b [] k' i')) as [o2 s2|e s2]
      eqn:E; [|discriminate].
    intros H; inversion H; subst.
    apply IH in E. cbn in E. destruct E as [E1 E2].
    split; [assumption|]. destruct rest; assumption.
Qed.

Lemma add_chunk_core chunk b c stack i :
  core_of (add_chunk chunk (mkState b c stack i))
  = run_lines (chunk_lines c (b ++ chunk)) stack i.
Proof.
  unfold add_chunk, _process_buffer, chunk_lines. do 3 step.
  rewrite run_lines_app.
  rewrite <- (process_complete_lines_core _ (b ++ chunk) c stack i).
  destruct (process_complete_lines (removelast (split_nl (b ++ chunk)))
              (mkState (b ++ chunk) c stack i)) as [o [b1 c1 k1 i1]|e s1] eqn:E;
    cbn [core_of and_then]; [|reflexivity].
  apply process_complete_lines_text in E; cbn in E. destruct E as [_ E]; subst c1.
  do 3 step.
  match goal with |- context [80 <? ?n] =>
    change n with (length (pending c (b ++ chunk))) end.
  destruct (80 <? length (pending c (b ++ chunk))).
  - step. rewrite _process_line_run. cbn [run_lines].
    change (line_step _ k1 i1) with (line_step (pending c (b ++ chunk)) k1 i1).
    destruct (line_step (pending c (b ++ chunk)) k1 i1); cbn; [|reflexivity].
    now rewrite app_nil_r.
  - cbn. now rewrite app_nil_r.
Qed.

Lemma add_chunk_text chunk s out s' :
  add_chunk chunk s = Ok out s' ->
  buffer s' = [] /\
  current_line s' = chunk_rest (current_line s) (buffer s ++ chunk).
Proof.
  destruct s as [b c stack i].
  unfold add_chunk, _process_buffer, chunk_rest. do 3 step.
  destruct (process_complete_lines (removelast (split_nl (b ++ chunk)))
              (mkState (b ++ chunk) c stack i)) as [o [b1 c1 k1 i1]|e s1] eqn:E;
    [|discriminate].
  apply process_complete_lines_text in E; cbn in E. destruct E as [_ E]; subst c1.
  do 3 step.
  match goal with |- context [80 <? ?n] =>
    change n with (length (pending c (b ++ chunk))) end.
  destruct (80 <? length (pending c (b ++ chunk))).
  - step. rewrite _process_line_run.
    match goal with |- context [line_step ?l k1 i1] =>
      destruct (line_step l k1 i1) end; cbn [with_text]; [|discriminate].
    step. intros H; inversion H; subst. split; reflexivity.
  - intros H; inversion H; subst. split; reflexivity.
Qed.

Lemma chunk_rest_short cur text : length (chunk_rest cur text) <= 80.
Proof.
  unfold chunk_rest.
  destruct (80 <? length (pending cur text)) eqn:E; [cbn; lia|].
  now apply Nat.ltb_ge in E.
Qed.

Lemma flush_core b c stack i :
  core_of (flush (mkState b c stack i))
  = and_then (run_lines (residual c) stack i)
             (fun k i' => Done (close_all k) [] i').
Proof.
  unfold flush. step.
  destruct c as [|a c']; cbn [residual run_lines and_then]; step.
  - step. rewrite _close_lists_run. now step.
  - rewrite _process_line_run.
    destruct (line_step (a :: c') stack i) as [o k' i'|e k' i'];
      cbn [with_text and_then]; [|reflexivity].
    step. rewrite _close_lists_run. step. cbn. now rewrite app_nil_r.
Qed.

Lemma flush_text s out s' :
  flush s = Ok out s' ->
  buffer s' = buffer s /\ current_line s' = [] /\ list_stack s' = [].
Proof.
  destruct s as [b c stack i]. unfold flush. step.
  destruct c as [|a c']; step.
  - step. rewrite _close_lists_run. step. intros H; inversion H; subst. now cbn.
  - rewrite _process_line_run.
    destruct (line_step (a :: c') stack i) as [o k' i'|e k' i'];
      cbn [with_text]; [|discriminate].
    step. rewrite _close_lists_run. step.
    intros H; inversion H; subst. now cbn.
Qed.

(** ** A second flush, and the bound on the pending line *)

(** C9. After [add_chunk("# ")] the first [flush()] raises
    [AttributeError] before it clears [current_line]; the second [flush()]
    finds the same line and raises again instead of returning the empty
    list. *)
Theorem second_flush_raises_again :
  add_chunk (py "# ") init = Ok [] (mkState [] (py "# ") [] false) /\
  flush (mkState [] (py "# ") [] false)
  = Raise AttributeError (mkState [] (py "# ") [] false) /\
  run_ops [AddChunk (py "# "); Flush] init = mkState [] (py "# ") [] false /\
  call Flush (run_ops [AddChunk (py "# "); Flush] init)
  = Raise AttributeError (mkState [] (py "# ") [] false).
Proof. vm_compute. repeat split. Qed.

Lemma process_each_core ls b c k i :
  core_of (process_each ls (mkState b c k i)) = run_lines ls k i.
Proof.
  revert k i; induction ls as [|l rest IH]; intros k i; [reflexivity|].
  cbn [process_each run_lines]. unfold bind at 1. rewrite _process_line_run.
  destruct (line_step l k i) as [o k1 i1|]; cbn [with_text and_then];
    [|reflexivity].
  unfold bind at 1. specialize (IH k1 i1).
  destruct (process_each rest (mkState b c k1 i1)); cbn [core_of] in IH |- *;
    rewrite <- IH; reflexivity.
Qed.

(** C10. When [add_chunk] returns, [buffer] is empty and [current_line]
    holds at most 80 characters.  A pending line of more than 80 characters
    has been dispatched and cleared before the call returns: the call
    returns what [_process_line] returns on the complete lines and then on
    the pending line, and leaves the list stack and the item flag they
    leave.  A pending line of at most 80 characters is kept, and only the
    complete lines are dispatched. *)
Theorem add_chunk_leaves_short_line (chunk : str) (s : State)
    (out : list fragment) (s' : State) :
  add_chunk chunk s = Ok out s' ->
  length (current_line s') <= 80 /\ buffer s' = [] /\
  (80 < length (pending (current_line s) (buffer s ++ chunk)) ->
   current_line s' = [] /\
   core_of (process_each
              (glue (current_line s) (removelast (split_nl (buffer s ++ chunk)))
               ++ [pending (current_line s) (buffer s ++ chunk)]) s)
   = Done out (list_stack s') (in_list_item s')) /\
  (length (pending (current_line s) (buffer s ++ chunk)) <= 80 ->
   current_line s' = pending (current_line s) (buffer s ++ chunk) /\
   core_of (process_each
              (glue (current_line s) (removelast (split_nl (buffer s ++ chunk))))
              s)
   = Done out (list_stack s') (in_list_item s')).
Proof.
  intros H. pose proof (add_chunk_text _ _ H) as [Hb Hc].
  destruct s as [b c k i]; cbn [buffer current_line] in *.
  pose proof (add_chunk_core chunk b c k i) as Hcore.
  rewrite H in Hcore. cbn [core_of] in Hcore.
  rewrite !process_each_core.
  unfold chunk_rest in Hc. unfold chunk_lines in Hcore.
  split; [rewrite Hc; apply chunk_rest_short|].
  split; [assumption|].
  split; intros Hlen.
  - apply Nat.ltb_lt in Hlen. rewrite Hlen in Hc, Hcore.
    split; [exact Hc | now symmetry].
  - apply Nat.ltb_ge in Hlen. rewrite Hlen in Hc, Hcore.
    rewrite app_nil_r in Hcore. split; [exact Hc | now symmetry].
Qed.

(** An item, and a second line of 81 characters with no line feed yet: the
    second line is dispatched as a continuation of the item. *)
Lemma add_chunk_short_line_witness :
  add_chunk (py "- a" ++ [nl] ++ repeat "b"%char 81) init
  = Ok [ListOpen ul; Li; Text (py "a"); Text (py " " ++ repeat "b"%char 81)]
       (mkState [] [] [mkFrame ul 0 None] false)
  /\ core_of (process_each [py "- a"; repeat "b"%char 81] init)
     = Done [ListOpen ul; Li; Text (py "a");
             Text (py " " ++ repeat "b"%char 81)]
            [mkFrame ul 0 None] false.
Proof.
  assert (H : add_chunk (py "- a" ++ [nl] ++ repeat "b"%char 81) init
              = Ok [ListOpen ul; Li; Text (py "a");
                    Text (py " " ++ repeat "b"%char 81)]
                   (mkState [] [] [mkFrame ul 0 None] false))
    by (vm_compute; reflexivity).
  split; [exact H|].
  destruct (@add_chunk_leaves_short_line _ _ _ _ H) as (_ & _ & Hlong & _).
  apply Hlong. apply Nat.ltb_lt. vm_compute. reflexivity.
Defined.

(** ** Lines the handlers cannot parse *)

(** C2. The line ["# "] is classified as a header, the header handler's
    pattern does not match it, and [add_chunk("# \n")] raises
    [AttributeError]; the same holds of the ordered item ["1. "]. *)
Theorem header_without_text_raises :
  is_header (py "# ") = true /\ match_header (py "# ") = None /\
  add_chunk (lines ["# "]) init
  = Raise AttributeError (mkState (lines ["# "]) (py "# ") [] false) /\
  is_ordered (py "1. ") = true /\ match_ordered (py "1. ") = None /\
  add_chunk (lines ["1. "]) init
  = Raise AttributeError (mkState (lines ["1. "]) (py "1. ") [] false).
Proof. vm_compute. repeat split. Qed.

(** ** Headers and open lists *)

(** Whatever the stack holds, [_process_header] empties it and returns
    the header alone. *)
Lemma _process_header_run line b c stack i level text :
  match_header line = Some (level, text) ->
  _process_header line (mkState b c stack i)
  = Ok [Header level (_format_inline text)] (mkState b c [] i).
Proof.
  intros E. unfold _process_header. unfold bind at 1.
  rewrite _close_lists_run, E. reflexivity.
Qed.

(** C3. With the list of ["- a"] open, the header line ["# T"] returns
    the header fragment alone: the stack is emptied and no closing pair is
    returned, neither by this call nor by the [flush()] after it. *)
Theorem header_drops_closing_pairs :
  final (add_chunk (lines ["- a"]) init)
  = mkState [] [] [mkFrame ul 0 None] true /\
  add_chunk (lines ["# T"]) (mkState [] [] [mkFrame ul 0 None] true)
  = Ok [Header 1 (py "T")] (mkState [] [] [] true) /\
  flush (mkState [] [] [] true) = Ok [] (mkState [] [] [] true) /\
  option_map render_all (returned (feed [lines ["- a"; "# T"]] init))
  = Some (py "<ul><li>a<h1>T</h1>").
Proof. vm_compute. repeat split. Qed.

(** ** The two list scenarios *)

(** C4, as stated: the concatenation for ["- a\n- b\n"] is not the
    string of the scenario. *)
Lemma scenario_B_as_stated_fails :
  option_map render_all (returned (feed [lines ["- a"; "- b"]] init))
  <> Some (py "<ul><li>a</li><li>b</li></ul>").
Proof. vm_compute. discriminate. Qed.

(** C4, amended. [add_chunk("- a\n- b\n")] then [flush()] return
    fragments whose concatenation is [<ul><li>a<li>b</li></ul>]: the
    first item is not closed on its own, the one [</li>] comes with
    [</ul>]. *)
Theorem scenario_B :
  option_map render_all (returned (feed [lines ["- a"; "- b"]] init))
  = Some (py "<ul><li>a<li>b</li></ul>").
Proof. vm_compute. reflexivity. Qed.

(** C5, as stated: the concatenation for ["1. a\n3. b\n"] is not the
    string of the scenario. *)
Lemma scenario_C_as_stated_fails :
  option_map render_all (returned (feed [lines ["1. a"; "3. b"]] init))
  <> Some (py "<ol start='1'><li>a</li><li value='3'>b</li></ol>").
Proof. vm_compute. discriminate. Qed.

(** C5, amended. [add_chunk("1. a\n3. b\n")] then [flush()] return
    [<ol start='1'>], an opening tag of the first item, [a],
    [<li value='3'>], [b], [</li>], [</ol>]: the item numbered 3 carries the
    value marker, and no [</li>] stands between the two items. *)
Theorem scenario_C :
  exists first : fragment,
    (first = Li \/ first = LiValue (Some 1%N)) /\
    returned (feed [lines ["1. a"; "3. b"]] init)
    = Some [OlOpen (Some 1%N); first; Text (py "a");
            LiValue (Some 3%N); Text (py "b"); LiClose; ListClose ol] /\
    option_map render_all (returned (feed [lines ["1. a"; "3. b"]] init))
    = Some (py "<ol start='1'>" ++ render first
            ++ py "a<li value='3'>b</li></ol>").
Proof.
  exists (LiValue (Some 1%N)). split; [now right|].
  vm_compute. split; reflexivity.
Qed.

(** ** Inline formatter and unpaired markers *)

Section NoMatch.
Variable matcher : str -> option (str * str).
Hypothesis matcher_shorter :
    forall s x r, matcher s = Some (x, r) -> length r < length s.
Variables opening closing : str.
Variable P : str -> Prop.
Hypothesis P_none : forall s, P s -> matcher s = None.
Hypothesis P_tail : forall c t, P (c :: t) -> P t.

  (** Where the pattern matches at no position, [re.sub] returns its
      argument. *)
Lemma re_sub_no_match s :
    P s -> re_sub matcher matcher_shorter opening closing s = s.
  Proof.
    induction s as [|c t IH]; intros Hp; simp re_sub; [reflexivity|].
    pose proof (P_none Hp) as E.
    generalize (inspect (matcher (c :: t))). intros [[[x r]|] e].
    - congruence.
    - cbn. f_equal. apply IH. eapply P_tail; eassumption.
  Qed.
End NoMatch.

Lemma stars_tail c t : stars (c :: t) <= 1 -> stars t <= 1.
Proof. unfold stars; cbn [count_occ]. destruct (ascii_dec c star); lia. Qed.

Lemma until_star_has_star s x r : until_star s = Some (x, r) -> 1 <= stars s.
Proof.
  revert x r; induction s as [|c t IH]; intros x r; cbn [until_star];
    [discriminate|].
  unfold stars; cbn [count_occ]. destruct (Ascii.eqb_spec c star) as [->|Hne].
  - destruct (ascii_dec star star); [lia | congruence].
  - destruct (Ascii.eqb c nl); [discriminate|].
    destruct (until_star t) as [[x' r']|] eqn:E; [|discriminate].
    intros _. specialize (IH _ _ eq_refl). unfold stars in IH.
    destruct (ascii_dec c star); lia.
Qed.

Lemma match_bold_needs_two s : stars s <= 1 -> match_bold s = None.
Proof.
  unfold match_bold, stars.
  destruct s as [|a [|b t]]; cbn [startswith count_occ]; try reflexivity.
  - now rewrite andb_false_r.
  - destruct (Ascii.eqb_spec star a) as [<-|]; [|reflexivity].
    destruct (Ascii.eqb_spec star b) as [<-|]; [|reflexivity].
    destruct (ascii_dec star star); [lia | congruence].
Qed.

Lemma match_italic_needs_two s : stars s <= 1 -> match_italic s = None.
Proof.
  destruct s as [|c t]; cbn [match_italic]; [reflexivity|].
  unfold stars; cbn [count_occ].
  destruct (Ascii.eqb_spec c star) as [->|]; [|reflexivity].
  destruct (ascii_dec star star); [|congruence].
  destruct (until_star t) as [[x r]|] eqn:E; [|reflexivity].
  apply until_star_has_star in E. unfold stars in E. lia.
Qed.




(** ** The list stack in reachable states *)

Lemma outcome_stack_core r : outcome_stack (core_of r) = list_stack (final r).
Proof. destruct r; reflexivity. Qed.

Lemma nested_tail f rest : nested (f :: rest) -> nested rest.
Proof. destruct rest; cbn; tauto. Qed.

Lemma nested_pop_while cond stack :
  nested stack -> nested (snd (pop_while cond stack)).
Proof.
  induction stack as [|f rest IH]; intros H; [exact I|].
  cbn [pop_while]. destruct (cond f); [|exact H].
  apply nested_tail in H. specialize (IH H).
  destruct (pop_while cond rest); exact IH.
Qed.

Lemma pop_while_deeper_top indent stack f rest :
  snd (pop_while (deeper indent) stack) = f :: rest ->
  frame_indent f <= indent.
Proof.
  induction stack as [|g k IH]; cbn [pop_while]; [discriminate|].
  unfold deeper at 1. destruct (indent <? frame_indent g) eqn:E.
  - destruct (pop_while (deeper indent) k); exact IH.
  - cbn. intros H; inversion H; subst. now apply Nat.ltb_ge in E.
Qed.

Lemma list_type_eqb_false a b : list_type_eqb a b = false -> a <> b.
Proof. destruct a, b; cbn; congruence. Qed.

Lemma nested_retop f n rest :
  nested (f :: rest) ->
  nested (mkFrame (frame_type f) (frame_indent f) n :: rest).
Proof. destruct rest; cbn; tauto. Qed.

Lemma nested_push t indent n left :
  nested left ->
  (forall f rest, left = f :: rest -> frame_indent f <= indent) ->
  starts_new_list left t indent = true ->
  nested (mkFrame t indent n :: left).
Proof.
  intros Hn Htop Hnew. destruct left as [|f rest]; [exact I|].
  cbn [nested frame_indent frame_type]. split; [|exact Hn].
  specialize (Htop f rest eq_refl). cbn in Hnew.
  apply orb_true_iff in Hnew. destruct Hnew as [Hlt|Hty].
  - left. now apply Nat.ltb_lt in Hlt.
  - apply negb_true_iff, list_type_eqb_false in Hty.
    destruct (Nat.eq_dec (frame_indent f) indent); [right; tauto | left; lia].
Qed.

Lemma item_step_nested t number content indent stack i :
  nested stack ->
  nested (outcome_stack (item_step t number content indent stack i)).
Proof.
  intros H. unfold item_step.
  pose proof (@nested_pop_while (deeper indent) _ H) as Hleft.
  pose proof (@pop_while_deeper_top indent stack) as Htop.
  destruct (pop_while (deeper indent) stack) as [closed left].
  cbn [snd] in Hleft, Htop.
  assert (Hpush : forall n, starts_new_list left t indent = true ->
                            nested (mkFrame t indent n :: left))
    by (intros n; now apply nested_push).
  destruct (starts_new_list left t indent).
  - specialize (fun n => Hpush n eq_refl).
    destruct t; cbn [outcome_stack]; [|apply Hpush].
    cbn [last_number]. destruct number; cbn [outcome_stack];
      [apply nested_retop with (f := mkFrame ol indent (Some n)); apply Hpush | apply Hpush].
  - destruct t; cbn [outcome_stack]; [|exact Hleft].
    destruct left as [|f rest]; [exact I|].
    destruct (last_number f); cbn [outcome_stack];
      [now apply nested_retop | exact Hleft].
Qed.

Lemma line_step_nested line stack i :
  nested stack -> nested (outcome_stack (line_step line stack i)).
Proof.
  intros H. unfold line_step.
  destruct (is_header (lstrip line)).
  { destruct (match_header (lstrip line)) as [[? ?]|]; exact I. }
  destruct (is_ordered (lstrip line)).
  { destruct (match_ordered (lstrip line)) as [[digits ?]|]; [|exact H].
    destruct (exceeds_int_limit digits);
      [exact H | now apply item_step_nested]. }
  destruct (startswith (py "- ") (lstrip line));
    [now apply item_step_nested|].
  destruct (str_eqb (strip (lstrip line)) []); [exact H|].
  destruct i; [exact H|]. now apply nested_pop_while.
Qed.

Section StackProperty.
Variable P : list Frame -> Prop.

Lemma and_then_stack o f :
    P (outcome_stack o) ->
    (forall k i, P k -> P (outcome_stack (f k i))) ->
    P (outcome_stack (and_then o f)).
  Proof.
    intros Ho Hf. destruct o as [out k i|e k i]; cbn; [|exact Ho].
    specialize (Hf k i Ho). now destruct (f k i).
  Qed.

Hypothesis line_step_keeps :
    forall line k i, P k -> P (outcome_stack (line_step line k i)).

Lemma run_lines_stack ls k i :
    P k -> P (outcome_stack (run_lines ls k i)).
  Proof.
    revert k i; induction ls as [|l rest IH]; intros k i H; [exact H|].
    cbn [run_lines]. apply and_then_stack; [now apply line_step_keeps|].
    intros; now apply IH.
  Qed.

Hypothesis P_nil : P [].

Lemma run_op_stack o s : P (list_stack s) -> P (list_stack (run_op o s)).
  Proof.
    destruct s as [b c k i]; cbn [list_stack]; intros H.
    destruct o as [chunk|]; cbn [run_op]; rewrite <- outcome_stack_core.
    - rewrite add_chunk_core. now apply run_lines_stack.
    - rewrite flush_core. apply and_then_stack; [now apply run_lines_stack|].
      intros; exact P_nil.
  Qed.

Lemma run_ops_stack ops s :
    P (list_stack s) -> P (list_stack (run_ops ops s)).
  Proof.
    revert s; induction ops as [|o rest IH]; intros s H; [exact H|].
    cbn. apply IH. now apply run_op_stack.
  Qed.
End StackProperty.

(** C7, as stated: after ["- a\n1. b\n- c\n"] three frames of indent 0 are
    open, two of them unordered. *)
Lemma stack_invariant_as_stated_fails :
  list_stack (run_ops [AddChunk (lines ["- a"; "1. b"; "- c"])] init)
  = [mkFrame ul 0 None; mkFrame ol 0 (Some 1%N); mkFrame ul 0 None] /\
  ~ strictly_nested
      (list_stack (run_ops [AddChunk (lines ["- a"; "1. b"; "- c"])] init)) /\
  ~ one_frame_per_kind_and_indent
      (list_stack (run_ops [AddChunk (lines ["- a"; "1. b"; "- c"])] init)).
Proof.
  assert (E : list_stack
                (run_ops [AddChunk (lines ["- a"; "1. b"; "- c"])] init)
              = [mkFrame ul 0 None; mkFrame ol 0 (Some 1%N); mkFrame ul 0 None])
    by (vm_compute; reflexivity).
  rewrite E. split; [reflexivity|]. split.
  - cbn. lia.
  - unfold one_frame_per_kind_and_indent; cbn. intros H.
    inversion H as [|x l Hin _]; subst. apply Hin. right; left; reflexivity.
Qed.

(** C7, amended. After every sequence of [add_chunk] and [flush] calls,
    the indents of the list stack never decrease from the bottom to the
    top, and two neighbouring frames of equal indent have different
    kinds. *)
Theorem stack_is_nested (ops : list op) :
  nested (list_stack (run_ops ops init)).
Proof.
  apply run_ops_stack; try exact I.
  intros; now apply line_step_nested.
Qed.

(** ** The only lines that raise *)

Lemma well_typed_pop_while cond stack :
  well_typed stack -> well_typed (snd (pop_while cond stack)).
Proof.
  induction stack as [|f rest IH]; intros H; [exact H|].
  cbn [pop_while]. destruct (cond f); [|exact H].
  inversion H; subst. specialize (IH H3).
  destruct (pop_while cond rest); exact IH.
Qed.

Lemma item_step_well_typed t number content indent stack i :
  well_typed stack -> (t = ol -> number <> None) ->
  well_typed (outcome_stack (item_step t number content indent stack i)) /\
  exists out k, item_step t number content indent stack i = Done out k true.
Proof.
  intros H Hn. unfold item_step.
  pose proof (@well_typed_pop_while (deeper indent) _ H) as Hleft.
  destruct (pop_while (deeper indent) stack) as [closed left].
  cbn [snd] in Hleft.
  destruct (starts_new_list left t indent) eqn:Hnew.
  - destruct t.
    + destruct number as [n|]; [|now exfalso; apply Hn].
      cbn [last_number outcome_stack]. split; [|now eexists; eexists].
      constructor; [intros _; discriminate | exact Hleft].
    + cbn [outcome_stack]. split; [|now eexists; eexists].
      constructor; [discriminate | exact Hleft].
  - destruct t; [|split; [exact Hleft | now eexists; eexists]].
    destruct left as [|f rest]; [discriminate Hnew|].
    cbn in Hnew. apply orb_false_iff in Hnew. destruct Hnew as [_ Hty].
    apply negb_false_iff in Hty.
    assert (Hol : frame_type f = ol) by (destruct (frame_type f); [reflexivity | discriminate]).
    inversion Hleft as [|? ? Hf Hrest]; subst.
    destruct (last_number f) as [last|] eqn:El; [|now exfalso; apply Hf].
    cbn [outcome_stack]. split; [|now eexists; eexists].
    constructor; [intros _; now apply Hn | exact Hrest].
Qed.

Lemma line_step_well_typed line stack i :
  well_typed stack -> well_typed (outcome_stack (line_step line stack i)).
Proof.
  intros H. unfold line_step.
  destruct (is_header (lstrip line)).
  { destruct (match_header (lstrip line)) as [[? ?]|]; constructor. }
  destruct (is_ordered (lstrip line)).
  { destruct (match_ordered (lstrip line)) as [[digits ?]|]; [|exact H].
    destruct (exceeds_int_limit digits); [exact H|].
    apply item_step_well_typed; [exact H | discriminate]. }
  destruct (startswith (py "- ") (lstrip line)).
  { apply item_step_well_typed; [exact H | discriminate]. }
  destruct (str_eqb (strip (lstrip line)) []); [exact H|].
  destruct i; [exact H|]. now apply well_typed_pop_while.
Qed.

(** In every state that calls reach, the frames of ordered lists hold a
    last number. *)
Lemma stack_is_well_typed ops : well_typed (list_stack (run_ops ops init)).
Proof.
  apply run_ops_stack; try constructor.
  intros; now apply line_step_well_typed.
Qed.

(** On such a stack a line raises only in two ways.  It is classified as
    a header or as an ordered item and the handler's own pattern does not
    match it (the way of C2), or the number of an ordered item has more
    digits than [int] converts.  The stack accesses of the list-item
    handler are guarded. *)
Lemma line_step_failures line stack i e stack' i' :
  well_typed stack ->
  line_step line stack i = Failed e stack' i' ->
  (e = AttributeError /\
   ((is_header (lstrip line) = true /\ match_header (lstrip line) = None) \/
    (is_header (lstrip line) = false /\ is_ordered (lstrip line) = true /\
     match_ordered (lstrip line) = None))) \/
  (e = ValueError /\ is_header (lstrip line) = false /\
   is_ordered (lstrip line) = true /\
   exists digits text,
     match_ordered (lstrip line) = Some (digits, text) /\
     exceeds_int_limit digits = true).
Proof.
  intros H. unfold line_step.
  destruct (is_header (lstrip line)).
  { destruct (match_header (lstrip line)) as [[? ?]|]; [discriminate|].
    intros E; inversion E; subst. left. split; [reflexivity | now left]. }
  destruct (is_ordered (lstrip line)).
  { destruct (match_ordered (lstrip line)) as [[digits text]|].
    - destruct (exceeds_int_limit digits) eqn:L.
      + intros E; inversion E; subst. right.
        repeat split. now exists digits, text.
      + intros E.
        destruct (@item_step_well_typed ol (Some (int_of_digits digits))
                    (_format_inline text)
                    (length line - length (lstrip line))
                    stack i H) as [_ [out [k E']]]; [discriminate|].
        congruence.
    - intros E; inversion E; subst. left.
      split; [reflexivity | now right]. }
  destruct (startswith (py "- ") (lstrip line)).
  { intros E.
    destruct (@item_step_well_typed ul None
                (_format_inline (skipn 2 (lstrip line)))
                (length line - length (lstrip line)) stack i H)
      as [_ [out [k E']]]; [discriminate|].
    congruence. }
  destruct (str_eqb (strip (lstrip line)) []); [discriminate|].
  destruct i; discriminate.
Qed.

(** ** A whole stream as a sequence of lines *)

Lemma returned_core r : returned r = outcome_out (core_of r).
Proof. destruct r; reflexivity. Qed.

Lemma feed_cons ch rest s :
  feed (ch :: rest) s
  = match add_chunk ch s with
    | Ok o1 s1 =>
        match feed rest s1 with
        | Ok o2 s2 => Ok (o1 ++ o2) s2
        | Raise e s2 => Raise e s2
        end
    | Raise e s1 => Raise e s1
    end.
Proof.
  unfold feed. cbn [add_chunks]. unfold bind, ret.
  destruct (add_chunk ch s) as [o1 s1|]; [|reflexivity].
  destruct (add_chunks rest s1) as [o2 s2|]; [|reflexivity].
  destruct (flush s2); [|reflexivity].
  now rewrite app_assoc.
Qed.

Lemma feed_core chunks c k i :
  core_of (feed chunks (mkState [] c k i))
  = finish (run_lines (dispatched c chunks) k i).
Proof.
  revert c k i; induction chunks as [|ch rest IH]; intros c k i.
  - unfold feed. cbn [add_chunks dispatched]. unfold bind at 1, ret.
    pose proof (flush_core [] c k i) as F. unfold finish.
    unfold bind. destruct (flush (mkState [] c k i)); cbn in F |- *;
      rewrite <- F; reflexivity.
  - rewrite feed_cons. cbn [dispatched]. unfold finish.
    rewrite run_lines_app, and_then_assoc.
    pose proof (add_chunk_core ch [] c k i) as A. cbn [app] in A.
    rewrite <- A.
    destruct (add_chunk ch (mkState [] c k i)) as [o1 [b1 c1 k1 i1]|e s1] eqn:E;
      cbn [core_of and_then list_stack in_list_item]; [|reflexivity].
    apply add_chunk_text in E. cbn in E. destruct E as [-> ->].
    specialize (IH (chunk_rest c ch) k1 i1). unfold finish in IH.
    rewrite <- IH.
    destruct (feed rest (mkState [] (chunk_rest c ch) k1 i1)); reflexivity.
Qed.

(** ** Tag balance *)

Lemma count_app p a b : count p (a ++ b) = count p a + count p b.
Proof. unfold count. now rewrite filter_app, length_app. Qed.

Lemma accounted_app k1 n1 o1 k2 n2 o2 k3 :
  accounted k1 n1 o1 k2 -> accounted k2 n2 o2 k3 ->
  accounted k1 (n1 + n2) (o1 ++ o2) k3.
Proof.
  intros [A1 B1 C1] [A2 B2 C2]. split; rewrite !count_app; lia.
Qed.

Lemma pop_while_length cond stack :
  length (snd (pop_while cond stack)) <= length stack.
Proof.
  induction stack as [|f rest IH]; cbn [pop_while]; [cbn; lia|].
  destruct (cond f); [|cbn; lia].
  destruct (pop_while cond rest); cbn in *; lia.
Qed.

Lemma pop_while_accounted cond stack :
  accounted stack 0 (fst (pop_while cond stack)) (snd (pop_while cond stack)).
Proof.
  induction stack as [|f rest IH]; cbn [pop_while].
  - split; reflexivity.
  - destruct (cond f); [|split; cbn; lia].
    destruct IH as [A B C].
    destruct (pop_while cond rest) as [out left]; cbn [fst snd] in *.
    split; unfold count in *; cbn in *; lia.
Qed.

Lemma item_step_accounted t number content indent stack i out stack' i' :
  item_step t number content indent stack i = Done out stack' i' ->
  accounted stack 0 out stack'.
Proof.
  unfold item_step.
  pose proof (pop_while_accounted (deeper indent) stack) as [A B C].
  destruct (pop_while (deeper indent) stack) as [closed left];
    cbn [fst snd] in *.
  destruct (starts_new_list left t indent), t;
    try (intros H; inversion H; subst; clear H;
         split; rewrite ?count_app; unfold count in *; cbn in *; lia).
  - cbn [last_number]. destruct number; [|discriminate].
    intros H; inversion H; subst; clear H.
    match goal with |- context [if ?b then LiValue _ else Li] =>
      destruct b end;
      split; rewrite ?count_app; unfold count in *; cbn in *; lia.
  - destruct left as [|f rest]; [discriminate|].
    destruct (last_number f) as [last|]; [|discriminate].
    intros H; inversion H; subst; clear H.
    match goal with |- context [if ?b then LiValue _ else Li] =>
      destruct b end;
      split; rewrite ?count_app; unfold count in *; cbn in *; lia.
Qed.

Lemma line_step_accounted line stack i out stack' i' :
  line_step line stack i = Done out stack' i' ->
  accounted stack (drops line stack i) out stack'.
Proof.
  unfold line_step, drops.
  destruct (is_header (lstrip line)).
  { destruct (match_header (lstrip line)) as [[? ?]|]; [|discriminate].
    intros H; inversion H; subst. split; unfold count; cbn; lia. }
  destruct (is_ordered (lstrip line)).
  { destruct (match_ordered (lstrip line)) as [[digits ?]|]; [|discriminate].
    destruct (exceeds_int_limit digits); [discriminate|].
    apply item_step_accounted. }
  destruct (startswith (py "- ") (lstrip line));
    [apply item_step_accounted|].
  destruct (str_eqb (strip (lstrip line)) []).
  { intros H; inversion H; subst. split; unfold count; cbn; lia. }
  destruct i; intros H; inversion H; subst; split; unfold count; cbn; try lia.
  pose proof (pop_while_length
                (deeper (length line - length (lstrip line))) stack).
  lia.
Qed.

Lemma run_lines_accounted ls stack i out stack' i' :
  run_lines ls stack i = Done out stack' i' ->
  accounted stack (dropped ls stack i) out stack'.
Proof.
  revert stack i out stack' i'; induction ls as [|l rest IH];
    intros stack i out stack' i'; cbn [run_lines dropped].
  - intros H; inversion H; subst. split; unfold count; cbn; lia.
  - destruct (line_step l stack i) as [o1 k1 i1|] eqn:E; cbn [and_then];
      [|discriminate].
    destruct (run_lines rest k1 i1) as [o2 k2 i2|] eqn:E2; [|discriminate].
    intros H; inversion H; subst.
    eapply accounted_app;
      [eapply line_step_accounted; eassumption | eapply IH; eassumption].
Qed.

(** Every frame opened during a stream is closed by a returned pair or
    dropped by a header or a plain line. *)
Lemma feed_accounted chunks out :
  returned (feed chunks init) = Some out ->
  count is_list_open out
  = count is_list_close out + dropped (dispatched [] chunks) [] false /\
  count is_li_close out = count is_list_close out /\
  count is_list_open out <= count is_li_open out.
Proof.
  rewrite returned_core. unfold init. rewrite feed_core. unfold finish.
  destruct (run_lines (dispatched [] chunks) [] false) as [o k i|] eqn:E;
    cbn [and_then outcome_out]; [|discriminate].
  intros H; inversion H; subst; clear H.
  apply run_lines_accounted in E.
  pose proof (pop_while_accounted (fun _ => true) k) as F.
  fold (close_all k) in F. rewrite pop_while_all in F.
  destruct (accounted_app E F) as [A B C]. cbn in A. lia.
Qed.

(** C1, as stated: the two items of ["- a\n- b\n"] open two [<li>] and
    the stream returns one [</li>]. *)
Lemma tag_balance_as_stated_fails :
  exists out,
    returned (feed [lines ["- a"; "- b"]] init) = Some out /\
    count is_li_open out = 2 /\ count is_li_close out = 1 /\
    ~ tag_balance out.
Proof.
  eexists. split; [vm_compute; reflexivity|].
  unfold tag_balance. vm_compute. repeat split; lia.
Qed.

(** C1, amended. For every sequence of chunks followed by [flush()] in
    which no header and no plain line pops a frame, the stream returns as
    many list-closing tags as list-opening tags, one [</li>] with each
    list-closing tag, and no more [</li>] than [<li>]. *)
Theorem list_tags_balance (chunks : list str) (out : list fragment) :
  returned (feed chunks init) = Some out ->
  dropped (dispatched [] chunks) [] false = 0 ->
  count is_list_open out = count is_list_close out /\
  count is_li_close out = count is_list_close out /\
  count is_li_close out <= count is_li_open out.
Proof.
  intros H D. apply feed_accounted in H. rewrite D in H. lia.
Qed.

(** A nested list with a continuation line, fed in two chunks. *)
Lemma list_tags_balance_witness :
  returned (feed [lines ["- a"; "  1. b"]; lines ["more"; "- c"]] init)
  = Some [ListOpen ul; Li; Text (py "a"); OlOpen (Some 1%N);
          LiValue (Some 1%N); Text (py "b"); Text (py " more");
          LiClose; ListClose ol; Li; Text (py "c"); LiClose; ListClose ul] /\
  dropped (dispatched [] [lines ["- a"; "  1. b"]; lines ["more"; "- c"]])
    [] false = 0 /\
  count is_list_open
    [ListOpen ul; Li; Text (py "a"); OlOpen (Some 1%N);
     LiValue (Some 1%N); Text (py "b"); Text (py " more");
     LiClose; ListClose ol; Li; Text (py "c"); LiClose; ListClose ul] = 2.
Proof.
  assert (H : returned
                (feed [lines ["- a"; "  1. b"]; lines ["more"; "- c"]] init)
              = Some [ListOpen ul; Li; Text (py "a"); OlOpen (Some 1%N);
                      LiValue (Some 1%N); Text (py "b"); Text (py " more");
                      LiClose; ListClose ol; Li; Text (py "c");
                      LiClose; ListClose ul])
    by (vm_compute; reflexivity).
  assert (D : dropped
                (dispatched [] [lines ["- a"; "  1. b"]; lines ["more"; "- c"]])
                [] false = 0)
    by (vm_compute; reflexivity).
  pose proof (@list_tags_balance _ _ H D) as B.
  split; [exact H|]. split; [exact D|].
  destruct B as [B _]. rewrite B. vm_compute. reflexivity.
Defined.

(** ** Chunk boundaries *)

Lemma split_nl_cons s : exists h r, split_nl s = h :: r.
Proof.
  induction s as [|c t [h [r E]]]; cbn [split_nl]; [now eexists; eexists|].
  destruct (Ascii.eqb c nl); [now eexists; eexists|].
  rewrite E. now eexists; eexists.
Qed.

Lemma last_cons_cons {A} (a b : A) l d : last (a :: b :: l) d = last (b :: l) d.
Proof. reflexivity. Qed.

(** Splitting a text cut in two: the last piece of the first part is
    joined with the first piece of the second. *)
Lemma split_nl_app a b :
  split_nl (a ++ b)
  = removelast (split_nl a) ++ glue (last (split_nl a) []) (split_nl b).
Proof.
  induction a as [|c t IH]; [cbn; now rewrite glue_nil|].
  cbn [app split_nl]. destruct (split_nl_cons t) as [h [r E]].
  destruct (split_nl_cons b) as [h' [r' E']].
  rewrite IH, E, E'. destruct (Ascii.eqb c nl).
  - rewrite last_cons_cons. reflexivity.
  - destruct r as [|h2 r2]; [reflexivity|].
    rewrite last_cons_cons. reflexivity.
Qed.
















(** * Further properties of the renderer *)

(** ** Chunks that end no line *)

Lemma split_nl_no_nl s : forallb not_nl s = true -> split_nl s = [s].
Proof.
  induction s as [|c t IH]; [reflexivity|].
  cbn [forallb split_nl]. intros H. apply andb_true_iff in H.
  destruct H as [Hc Ht]. unfold not_nl in Hc. apply negb_true_iff in Hc.
  rewrite Hc, (IH Ht). reflexivity.
Qed.

Lemma pending_no_nl cur chunk :
  forallb not_nl chunk = true -> pending cur chunk = cur ++ chunk.
Proof. intros H. unfold pending. now rewrite (split_nl_no_nl _ H). Qed.

(** A returned [add_chunk] is known from what it dispatches. *)
Lemma add_chunk_done chunk b c k i out k' i' :
  run_lines (chunk_lines c (b ++ chunk)) k i = Done out k' i' ->
  add_chunk chunk (mkState b c k i)
  = Ok out (mkState [] (chunk_rest c (b ++ chunk)) k' i').
Proof.
  intros H. rewrite <- add_chunk_core in H.
  destruct (add_chunk chunk (mkState b c k i)) as [o [b1 c1 k1 i1]|] eqn:E;
    [|discriminate].
  apply add_chunk_text in E. cbn in E, H. destruct E as [-> ->].
  now inversion H.
Qed.

(** X1. A chunk with no line feed (the empty chunk too) that keeps the
    pending line within 80 characters is only stored: [add_chunk] returns
    no fragment, appends the chunk to [current_line] and leaves the list
    stack and the item flag as they are. *)
Theorem short_chunk_is_buffered (chunk : str) (s : State) :
  buffer s = [] ->
  forallb not_nl chunk = true ->
  length (current_line s ++ chunk) <= 80 ->
  add_chunk chunk s = Ok [] (set_current_line (current_line s ++ chunk) s).
Proof.
  destruct s as [b c k i]; cbn [buffer current_line]. intros -> Hnl Hlen.
  assert (E80 : (80 <? length (pending c chunk)) = false)
    by (rewrite (pending_no_nl _ _ Hnl); now apply Nat.ltb_ge).
  rewrite (@add_chunk_done chunk [] c k i [] k i).
  - unfold chunk_rest. cbn [app]. rewrite E80, (pending_no_nl _ _ Hnl).
    reflexivity.
  - unfold chunk_lines. cbn [app]. rewrite E80, (split_nl_no_nl _ Hnl).
    reflexivity.
Qed.

(** A pending item that grows by three characters. *)
Lemma short_chunk_witness :
  add_chunk (py "bcd") (mkState [] (py "- a") [] false)
  = Ok [] (mkState [] (py "- abcd") [] false).
Proof.
  apply (@short_chunk_is_buffered (py "bcd") (mkState [] (py "- a") [] false));
    [reflexivity | reflexivity | vm_compute; lia].
Defined.

(** X2. A chunk with no line feed that makes the pending line longer than
    80 characters has that line dispatched at once: [add_chunk] returns what
    [_process_line] returns for it and clears [current_line]; when the line
    raises, [current_line] keeps it. *)
Theorem long_pending_line_is_dispatched (chunk : str) (s : State) :
  buffer s = [] ->
  forallb not_nl chunk = true ->
  80 < length (current_line s ++ chunk) ->
  add_chunk chunk s
  = (out <- _process_line (current_line s ++ chunk) ;;
     modify (set_current_line []) ;;;
     ret out)
      (set_current_line (current_line s ++ chunk) s).
Proof.
  destruct s as [b c k i]; cbn [buffer current_line]. intros -> Hnl Hlen.
  apply Nat.ltb_lt in Hlen.
  unfold add_chunk, _process_buffer. do 2 step. cbn [app].
  rewrite (split_nl_no_nl _ Hnl). cbn [removelast last process_complete_lines].
  do 4 step. rewrite Hlen. do 2 step.
  unfold bind, modify, ret, set_current_line;
    cbn [buffer current_line list_stack in_list_item].
  rewrite !_process_line_run.
  destruct (line_step (c ++ chunk) k i); reflexivity.
Qed.

(** A plain line of 81 characters with no line feed. *)
Lemma long_pending_line_witness :
  add_chunk (repeat "a"%char 81) init
  = Ok [Text (repeat "a"%char 81)] init.
Proof.
  rewrite (@long_pending_line_is_dispatched (repeat "a"%char 81) init);
    [vm_compute; reflexivity | reflexivity | reflexivity | vm_compute; lia].
Defined.

(** ** Blank lines *)

Lemma lstrip_all_space l : forallb isspace l = true -> lstrip l = [].
Proof.
  induction l as [|c t IH]; [reflexivity|].
  cbn [forallb lstrip]. intros H. apply andb_true_iff in H.
  destruct H as [-> Ht]. exact (IH Ht).
Qed.

Lemma blank_line_step line k i :
  forallb isspace line = true -> line_step line k i = Done [Br] k false.
Proof.
  intros H. unfold line_step. rewrite (lstrip_all_space _ H). reflexivity.
Qed.

(** X3. A line made of white space only (the empty line too) returns the
    single fragment [<br>], clears the item flag and leaves the list stack
    as it is: a blank line closes no list. *)
Theorem blank_line_keeps_lists (line : str) (s : State) :
  forallb isspace line = true ->
  _process_line line s = Ok [Br] (set_in_list_item false s).
Proof.
  intros H. destruct s as [b c k i].
  rewrite _process_line_run, (blank_line_step _ k i H). reflexivity.
Qed.

(** A line of two spaces inside an open list. *)
Lemma blank_line_witness :
  _process_line (py "  ") (mkState [] [] [mkFrame ul 0 None] true)
  = Ok [Br] (mkState [] [] [mkFrame ul 0 None] false).
Proof.
  apply (@blank_line_keeps_lists (py "  ")
           (mkState [] [] [mkFrame ul 0 None] true)).
  reflexivity.
Defined.

Lemma split_nl_line_feeds n : split_nl (repeat nl n) = repeat [] (S n).
Proof.
  induction n as [|n IH]; [reflexivity|].
  cbn [repeat split_nl]. rewrite Ascii.eqb_refl, IH. reflexivity.
Qed.

Lemma removelast_repeat {A} (x : A) n : removelast (repeat x (S n)) = repeat x n.
Proof.
  induction n as [|n IH]; [reflexivity|].
  change (repeat x (S (S n))) with (x :: repeat x (S n)).
  cbn [removelast]. rewrite IH. reflexivity.
Qed.

Lemma last_repeat {A} (x : A) n d : last (repeat x (S n)) d = x.
Proof.
  induction n as [|n IH]; [reflexivity|].
  cbn [repeat]. rewrite last_cons_cons. exact IH.
Qed.

Lemma run_blank_lines n k i :
  run_lines (repeat [] n) k i
  = Done (repeat Br n) k (match n with 0 => i | S _ => false end).
Proof.
  revert i; induction n as [|n IH]; intros i; [reflexivity|].
  cbn [repeat run_lines]. rewrite (@blank_line_step [] k i eq_refl).
  cbn [and_then]. rewrite IH. destruct n; reflexivity.
Qed.

(** X4. With nothing pending, a chunk of [n] line feeds returns [n]
    fragments [<br>], one for each, and leaves the list stack as it is. *)
Theorem line_feeds_give_breaks (n : nat) (s : State) :
  buffer s = [] -> current_line s = [] ->
  add_chunk (repeat nl n) s
  = Ok (repeat Br n)
       (match n with 0 => s | S _ => set_in_list_item false s end).
Proof.
  destruct s as [b c k i]; cbn [buffer current_line]. intros -> ->.
  assert (P : pending [] (repeat nl n) = []).
  { unfold pending. rewrite split_nl_line_feeds, removelast_repeat, last_repeat.
    match goal with |- context [match ?x with _ => _ end] => now destruct x end. }
  rewrite (@add_chunk_done (repeat nl n) [] [] k i (repeat Br n) k
             (match n with 0 => i | S _ => false end)).
  - unfold chunk_rest. cbn [app]. rewrite P. cbn. now destruct n.
  - unfold chunk_lines. cbn [app]. rewrite P. cbn [length Nat.ltb Nat.leb].
    rewrite app_nil_r, split_nl_line_feeds, removelast_repeat, glue_nil.
    apply run_blank_lines.
Qed.

(** Three line feeds inside an open list. *)
Lemma line_feeds_witness :
  add_chunk (repeat nl 3) (mkState [] [] [mkFrame ul 0 None] true)
  = Ok [Br; Br; Br] (mkState [] [] [mkFrame ul 0 None] false).
Proof.
  apply (@line_feeds_give_breaks 3 (mkState [] [] [mkFrame ul 0 None] true));
    reflexivity.
Defined.

(** ** The exceptions a call can raise *)

Lemma run_lines_failures ls k i e k' i' :
  well_typed k -> run_lines ls k i = Failed e k' i' ->
  e = AttributeError \/ e = ValueError.
Proof.
  revert k i; induction ls as [|l rest IH]; intros k i Hk; [discriminate|].
  cbn [run_lines].
  pose proof (@line_step_well_typed l k i Hk) as Hk1.
  destruct (line_step l k i) as [o1 k1 i1|e1 k1 i1] eqn:E; cbn [and_then].
  - cbn [outcome_stack] in Hk1. specialize (IH k1 i1 Hk1).
    destruct (run_lines rest k1 i1); [discriminate|].
    intros H; inversion H; subst. now apply IH.
  - intros H; inversion H; subst.
    destruct (@line_step_failures l k i e k' i' Hk E) as [[-> _]|[-> _]];
      [now left | now right].
Qed.

(** X5. After any sequence of calls, a call of [add_chunk] or [flush] that
    raises raises [AttributeError] or [ValueError]: the unmatched pattern
    of a header or an ordered item, or [int] on a number of more digits
    than it converts.  The accesses to the list stack and to the last
    number in [_handle_list_item] never fail: no [IndexError], no
    [TypeError]. *)
Theorem only_pattern_and_int_errors (ops : list op) (o : op) (e : exn)
    (s' : State) :
  call o (run_ops ops init) = Raise e s' ->
  e = AttributeError \/ e = ValueError.
Proof.
  pose proof (stack_is_well_typed ops) as Hk.
  destruct (run_ops ops init) as [b c k i]. cbn [list_stack] in Hk.
  intros H. apply (f_equal core_of) in H. cbn [core_of] in H.
  destruct o as [chunk|]; cbn [call] in H.
  - rewrite add_chunk_core in H.
    eapply run_lines_failures; eassumption.
  - rewrite flush_core in H.
    destruct (run_lines (residual c) k i) as [o1 k1 i1|e1 k1 i1] eqn:E;
      cbn [and_then] in H; [discriminate|].
    inversion H; subst.
    eapply run_lines_failures; eassumption.
Qed.

(** An ordered item of 4301 digits after an open ordered list. *)
Lemma only_pattern_and_int_errors_witness :
  call (AddChunk (repeat "1"%char 4301 ++ lines [". x"]))
    (run_ops [AddChunk (lines ["1. a"])] init)
  = Raise ValueError
      (mkState (repeat "1"%char 4301 ++ lines [". x"])
         (repeat "1"%char 4301 ++ py ". x") [mkFrame ol 0 (Some 1%N)] true)
  /\ (ValueError = AttributeError \/ ValueError = ValueError).
Proof.
  assert (H : call (AddChunk (repeat "1"%char 4301 ++ lines [". x"]))
                (run_ops [AddChunk (lines ["1. a"])] init)
              = Raise ValueError
                  (mkState (repeat "1"%char 4301 ++ lines [". x"])
                     (repeat "1"%char 4301 ++ py ". x")
                     [mkFrame ol 0 (Some 1%N)] true))
    by (vm_compute; reflexivity).
  split; [exact H | exact (@only_pattern_and_int_errors _ _ _ _ H)].
Defined.

(** ** Headers *)

Lemma match_hashes_level s level r :
  match_hashes s = Some (level, r) -> 1 <= level <= 6.
Proof.
  unfold match_hashes. destruct (span (Ascii.eqb hash) s) as [h t].
  destruct t as [|c t']; [discriminate|].
  destruct (1 <=? length h) eqn:E1; [|discriminate].
  destruct (length h <=? 6) eqn:E6; [|discriminate].
  destruct (isspace c); [|discriminate]. cbn.
  intros H; inversion H; subst.
  apply Nat.leb_le in E1, E6. lia.
Qed.

Lemma match_rest_nonempty s text : match_rest s = Some text -> text <> [].
Proof.
  unfold match_rest. destruct (span not_nl s) as [x r].
  destruct x as [|a x']; [discriminate|].
  destruct r as [|c [|c2 r2]]; intros H; inversion H; discriminate.
Qed.

(** X6. When [_process_header] returns, it returns one header fragment
    whose level is between 1 and 6, the list stack is empty and the item
    flag is as before: an open item is not marked closed. *)
Theorem header_level_and_stack (line : str) (s : State)
    (out : list fragment) (s' : State) :
  _process_header line s = Ok out s' ->
  (exists level content,
      out = [Header level content] /\ 1 <= level <= 6) /\
  list_stack s' = [] /\ in_list_item s' = in_list_item s.
Proof.
  destruct s as [b c k i]. unfold _process_header. unfold bind at 1.
  rewrite _close_lists_run.
  destruct (match_header line) as [[level text]|] eqn:E; [|discriminate].
  intros H; inversion H; subst; clear H. split; [|split; reflexivity].
  exists level, (_format_inline text). split; [reflexivity|].
  unfold match_header in E.
  destruct (match_hashes line) as [[lv r]|] eqn:Eh; [|discriminate].
  destruct (match_rest r); [|discriminate]. inversion E; subst.
  eapply match_hashes_level; eassumption.
Qed.

(** A header of level 3 under an open item. *)
Lemma header_level_witness :
  _process_header (py "### T") (mkState [] [] [mkFrame ul 0 None] true)
  = Ok [Header 3 (py "T")] (mkState [] [] [] true)
  /\ in_list_item (mkState [] [] [] true) = true.
Proof.
  assert (H : _process_header (py "### T")
                (mkState [] [] [mkFrame ul 0 None] true)
              = Ok [Header 3 (py "T")] (mkState [] [] [] true))
    by (vm_compute; reflexivity).
  split; [exact H|].
  destruct (@header_level_and_stack _ _ _ _ H) as (_ & _ & F). exact F.
Defined.

Lemma span_hashes_length n rest :
  n <= length (fst (span (Ascii.eqb hash) (repeat hash n ++ rest))).
Proof.
  induction n as [|n IH]; cbn [repeat app]; [lia|].
  cbn [span]. rewrite Ascii.eqb_refl.
  destruct (span (Ascii.eqb hash) (repeat hash n ++ rest)); cbn in *; lia.
Qed.

Lemma lstrip_keeps_last l c : isspace c = false -> lstrip (l ++ [c]) <> [].
Proof.
  intros H. induction l as [|a t IH]; cbn [app lstrip].
  - rewrite H. discriminate.
  - destruct (isspace a); [exact IH | discriminate].
Qed.

Lemma strip_nonempty c t : isspace c = false -> strip (c :: t) <> [].
Proof.
  intros H. unfold strip. cbn [lstrip]. rewrite H. cbn [rev].
  intros E. apply (f_equal (@rev ascii)) in E. rewrite rev_involutive in E.
  now apply (@lstrip_keeps_last (rev t) c H).
Qed.

Lemma str_eqb_false a : a <> [] -> str_eqb a [] = false.
Proof.
  intros H. unfold str_eqb. now destruct (list_eq_dec ascii_dec a []).
Qed.

(** X7. A line that starts with more than six [#] is not a header, whatever
    follows: [_process_line] hands it, whole and with indent 0, to the
    handler of plain text. *)
Theorem more_than_six_hashes_are_text (n : nat) (rest : str) (s : State) :
  6 < n ->
  _process_line (repeat hash n ++ rest) s
  = _process_text (repeat hash n ++ rest) 0 s.
Proof.
  intros Hn. destruct n as [|n]; [lia|].
  unfold _process_line.
  assert (L : lstrip (repeat hash (S n) ++ rest) = repeat hash (S n) ++ rest)
    by reflexivity.
  rewrite L, Nat.sub_diag.
  assert (H1 : is_header (repeat hash (S n) ++ rest) = false).
  { unfold is_header, match_hashes.
    pose proof (span_hashes_length (S n) rest) as Hlen.
    destruct (span (Ascii.eqb hash) (repeat hash (S n) ++ rest)) as [h r].
    cbn [fst] in Hlen. destruct r as [|c r']; [reflexivity|].
    assert (E : (length h <=? 6) = false) by (apply Nat.leb_gt; lia).
    now rewrite E, andb_false_r. }
  rewrite H1.
  assert (H2 : is_ordered (repeat hash (S n) ++ rest) = false) by reflexivity.
  assert (H3 : startswith (py "- ") (repeat hash (S n) ++ rest) = false)
    by reflexivity.
  rewrite H2, H3.
  rewrite str_eqb_false; [reflexivity|].
  cbn [repeat app]. now apply strip_nonempty.
Qed.

(** Seven [#] and a title, outside any list. *)
Lemma more_than_six_hashes_witness :
  _process_line (repeat hash 7 ++ py " T") init
  = Ok [Text (py "####### T")] init.
Proof.
  rewrite (@more_than_six_hashes_are_text 7 (py " T") init);
    [vm_compute; reflexivity | lia].
Defined.

(** ** Emphasis pairs *)

Lemma stars_app u v : stars (u ++ v) = stars u + stars v.
Proof. unfold stars. apply count_occ_app. Qed.

Lemma stars_cons_other c t : Ascii.eqb c star = false -> stars (c :: t) = stars t.
Proof.
  intros H. unfold stars. cbn [count_occ].
  destruct (ascii_dec c star) as [->|]; [|reflexivity].
  now rewrite Ascii.eqb_refl in H.
Qed.

Lemma stars_cons_star t : stars (star :: t) = S (stars t).
Proof.
  unfold stars. cbn [count_occ]. now destruct (ascii_dec star star).
Qed.

Lemma inline_text_stars x : inline_text x = true -> stars x = 0.
Proof.
  induction x as [|c t IH]; [reflexivity|].
  cbn [inline_text forallb]. intros H. apply andb_true_iff in H.
  destruct H as [Hc Ht]. apply andb_true_iff in Hc. destruct Hc as [Hs _].
  apply negb_true_iff in Hs. rewrite (stars_cons_other _ _ Hs). exact (IH Ht).
Qed.

Lemma stars_zero_head c t : stars (c :: t) = 0 -> Ascii.eqb c star = false.
Proof.
  destruct (Ascii.eqb_spec c star) as [->|]; [|reflexivity].
  rewrite stars_cons_star. discriminate.
Qed.

Lemma until_stars2_closes x b :
  inline_text x = true ->
  until_stars2 (x ++ star :: star :: b) = Some (x, b).
Proof.
  induction x as [|c t IH]; intros H.
  - cbn [app until_stars2 startswith]. rewrite !Ascii.eqb_refl. reflexivity.
  - cbn [inline_text forallb] in H. apply andb_true_iff in H.
    destruct H as [Hc Ht]. apply andb_true_iff in Hc. destruct Hc as [Hs Hn].
    apply negb_true_iff in Hs, Hn.
    cbn [app until_stars2 startswith].
    rewrite (Ascii.eqb_sym star c), Hs, Hn. cbn [andb].
    now rewrite (IH Ht).
Qed.

Lemma until_star_closes x b :
  inline_text x = true -> until_star (x ++ star :: b) = Some (x, b).
Proof.
  induction x as [|c t IH]; intros H.
  - cbn [app until_star]. now rewrite Ascii.eqb_refl.
  - cbn [inline_text forallb] in H. apply andb_true_iff in H.
    destruct H as [Hc Ht]. apply andb_true_iff in Hc. destruct Hc as [Hs Hn].
    apply negb_true_iff in Hs, Hn.
    cbn [app until_star]. now rewrite Hs, Hn, (IH Ht).
Qed.

Lemma until_stars2_has_two_stars s x r :
  until_stars2 s = Some (x, r) -> 2 <= stars s.
Proof.
  revert x r; induction s as [|c t IH]; intros x r; [discriminate|].
  cbn [until_stars2].
  destruct (startswith [star; star] (c :: t)) eqn:E.
  - intros _. cbn [startswith] in E.
    destruct t as [|c2 t2]; [now rewrite andb_false_r in E|].
    apply andb_true_iff in E. destruct E as [E1 E2].
    apply andb_true_iff in E2. destruct E2 as [E2 _].
    apply Ascii.eqb_eq in E1, E2. subst. rewrite !stars_cons_star. lia.
  - destruct (Ascii.eqb c nl); [discriminate|].
    destruct (until_stars2 t) as [[x' r']|] eqn:Et; [|discriminate].
    intros _. specialize (IH _ _ eq_refl).
    unfold stars in *. cbn [count_occ]. destruct (ascii_dec c star); lia.
Qed.

Lemma match_bold_needs_four s : stars s <= 3 -> match_bold s = None.
Proof.
  intros H. unfold match_bold.
  destruct (startswith [star; star] s) eqn:E; [|reflexivity].
  destruct s as [|a [|b t]]; cbn [startswith] in E;
    [discriminate | now rewrite andb_false_r in E |].
  apply andb_true_iff in E. destruct E as [E1 E2].
  apply andb_true_iff in E2. destruct E2 as [E2 _].
  apply Ascii.eqb_eq in E1, E2. subst. rewrite !stars_cons_star in H.
  cbn [skipn]. destruct (until_stars2 t) as [[x r]|] eqn:Et; [|reflexivity].
  apply until_stars2_has_two_stars in Et. lia.
Qed.

Lemma stars_tail3 c t : stars (c :: t) <= 3 -> stars t <= 3.
Proof. unfold stars; cbn [count_occ]. destruct (ascii_dec c star); lia. Qed.

Section ReSubSteps.
Variable matcher : str -> option (str * str).
Hypothesis matcher_shorter :
  forall s x r, matcher s = Some (x, r) -> length r < length s.
Variables opening closing : str.

(** A match at the head is replaced, and the scan goes on after it. *)
Lemma re_sub_match c t x r :
  matcher (c :: t) = Some (x, r) ->
  re_sub matcher matcher_shorter opening closing (c :: t)
  = opening ++ x ++ closing
    ++ re_sub matcher matcher_shorter opening closing r.
Proof.
  intros E. simp re_sub.
  generalize (inspect (matcher (c :: t))). intros [[[x' r']|] e].
  - cbn. assert (Some (x', r') = Some (x, r)) as Heq by congruence.
    inversion Heq; subst. reflexivity.
  - congruence.
Qed.

Hypothesis needs_star :
  forall c t, Ascii.eqb c star = false -> matcher (c :: t) = None.

(** Text without a star before the first star is copied. *)
Lemma re_sub_copies_prefix a s :
  stars a = 0 ->
  re_sub matcher matcher_shorter opening closing (a ++ s)
  = a ++ re_sub matcher matcher_shorter opening closing s.
Proof.
  induction a as [|c t IH]; intros H; [reflexivity|].
  pose proof (stars_zero_head _ _ H) as Hc.
  rewrite (stars_cons_other _ _ Hc) in H.
  cbn [app]. simp re_sub.
  generalize (inspect (matcher (c :: t ++ s))). intros [[[x r]|] e].
  - pose proof (needs_star c (t ++ s) Hc) as N. congruence.
  - cbn. now rewrite (IH H).
Qed.
End ReSubSteps.

Lemma match_bold_needs_star c t :
  Ascii.eqb c star = false -> match_bold (c :: t) = None.
Proof.
  intros H. unfold match_bold. cbn [startswith].
  now rewrite (Ascii.eqb_sym star c), H.
Qed.

Lemma match_italic_needs_star c t :
  Ascii.eqb c star = false -> match_italic (c :: t) = None.
Proof. intros H. cbn [match_italic]. now rewrite H. Qed.

Lemma stars_le_zero s : stars s = 0 -> stars s <= 1.
Proof. lia. Qed.

(** X8. A pair of double stars around text with no star and no line feed
    becomes a [<strong>] element; text without stars before and after the
    pair is left as it is. *)
Theorem bold_pair_is_strong (a x b : str) :
  stars a = 0 -> inline_text x = true -> stars b = 0 ->
  _format_inline (a ++ py "**" ++ x ++ py "**" ++ b)
  = a ++ py "<strong>" ++ x ++ py "</strong>" ++ b.
Proof.
  intros Ha Hx Hb. unfold _format_inline.
  rewrite (@re_sub_copies_prefix match_bold match_bold_shorter
             (py "<strong>") (py "</strong>") match_bold_needs_star a _ Ha).
  assert (E : match_bold (py "**" ++ x ++ py "**" ++ b) = Some (x, b)).
  { unfold match_bold. cbn [py list_ascii_of_string app startswith skipn].
    rewrite !Ascii.eqb_refl. cbn [andb]. exact (until_stars2_closes x b Hx). }
  change (py "**" ++ x ++ py "**" ++ b)
    with (star :: (star :: x ++ py "**" ++ b)) in E |- *.
  rewrite (@re_sub_match match_bold match_bold_shorter
             (py "<strong>") (py "</strong>") _ _ _ _ E).
  rewrite (@re_sub_no_match match_bold match_bold_shorter _ _
             (fun s => stars s <= 1) match_bold_needs_two stars_tail b
             (stars_le_zero _ Hb)).
  apply (@re_sub_no_match match_italic match_italic_shorter _ _
           (fun s => stars s <= 1) match_italic_needs_two stars_tail).
  rewrite !stars_app, Ha, Hb, (inline_text_stars _ Hx). vm_compute. lia.
Qed.

(** Bold text inside a sentence. *)
Lemma bold_pair_witness :
  _format_inline (py "say " ++ py "**" ++ py "hi" ++ py "**" ++ py " now")
  = py "say <strong>hi</strong> now".
Proof.
  apply (@bold_pair_is_strong (py "say ") (py "hi") (py " now")); reflexivity.
Defined.

(** X9. A pair of single stars around text with no star and no line feed
    becomes an [<em>] element; text without stars before and after the
    pair is left as it is. An empty pair, two adjacent stars, becomes an
    empty [<em>] element. *)
Theorem italic_pair_is_em (a x b : str) :
  stars a = 0 -> inline_text x = true -> stars b = 0 ->
  _format_inline (a ++ py "*" ++ x ++ py "*" ++ b)
  = a ++ py "<em>" ++ x ++ py "</em>" ++ b.
Proof.
  intros Ha Hx Hb. unfold _format_inline.
  rewrite (@re_sub_no_match match_bold match_bold_shorter _ _
             (fun s => stars s <= 3) match_bold_needs_four stars_tail3).
  2:{ rewrite !stars_app, Ha, Hb, (inline_text_stars _ Hx).
      vm_compute. lia. }
  rewrite (@re_sub_copies_prefix match_italic match_italic_shorter
             (py "<em>") (py "</em>") match_italic_needs_star a _ Ha).
  assert (E : match_italic (py "*" ++ x ++ py "*" ++ b) = Some (x, b)).
  { cbn [py list_ascii_of_string app match_italic].
    rewrite Ascii.eqb_refl. exact (until_star_closes x b Hx). }
  change (py "*" ++ x ++ py "*" ++ b) with (star :: (x ++ py "*" ++ b))
    in E |- *.
  rewrite (@re_sub_match match_italic match_italic_shorter
             (py "<em>") (py "</em>") _ _ _ _ E).
  now rewrite (@re_sub_no_match match_italic match_italic_shorter _ _
                 (fun s => stars s <= 1) match_italic_needs_two stars_tail b
                 (stars_le_zero _ Hb)).
Qed.

(** Italic text inside a sentence. *)
Lemma italic_pair_witness :
  _format_inline (py "say " ++ py "*" ++ py "hi" ++ py "*" ++ py " now")
  = py "say <em>hi</em> now".
Proof.
  apply (@italic_pair_is_em (py "say ") (py "hi") (py " now")); reflexivity.
Defined.

(** ** Closing tags over a stream *)

(** X10. In the fragments of every stream that returns, list-closing tags
    never outnumber list-opening tags, every [</li>] comes with a
    list-closing tag (their numbers are equal), and list-opening tags never
    outnumber [<li>] tags. *)
Theorem closing_tags_never_exceed_openings (chunks : list str)
    (out : list fragment) :
  returned (feed chunks init) = Some out ->
  count is_list_close out <= count is_list_open out /\
  count is_li_close out = count is_list_close out /\
  count is_list_open out <= count is_li_open out.
Proof. intros H. apply feed_accounted in H. lia. Qed.

(** A list cut short by a header. *)
Lemma closing_tags_witness :
  returned (feed [lines ["- a"; "# T"; "1. b"]] init)
  = Some [ListOpen ul; Li; Text (py "a"); Header 1 (py "T");
          OlOpen (Some 1%N); LiValue (Some 1%N); Text (py "b");
          LiClose; ListClose ol]
  /\ count is_list_close
       [ListOpen ul; Li; Text (py "a"); Header 1 (py "T");
        OlOpen (Some 1%N); LiValue (Some 1%N); Text (py "b");
        LiClose; ListClose ol] <= 2.
Proof.
  assert (H : returned (feed [lines ["- a"; "# T"; "1. b"]] init)
              = Some [ListOpen ul; Li; Text (py "a"); Header 1 (py "T");
                      OlOpen (Some 1%N); LiValue (Some 1%N); Text (py "b");
                      LiClose; ListClose ol])
    by (vm_compute; reflexivity).
  split; [exact H|].
  destruct (@closing_tags_never_exceed_openings _ _ H) as [L _].
  exact L.
Defined.

(** ** What [flush] leaves and returns *)

(** X11. When [flush] returns, the list stack and [current_line] are empty
    and [buffer] is as it was. *)
Theorem flush_drains (s : State) (out : list fragment) (s' : State) :
  flush s = Ok out s' ->
  list_stack s' = [] /\ current_line s' = [] /\ buffer s' = buffer s.
Proof. intros H. apply flush_text in H. tauto. Qed.

(** A pending item inside an open list. *)
Lemma flush_drains_witness :
  flush (mkState [] (py "  - b") [mkFrame ul 0 None] true)
  = Ok [ListOpen ul; Li; Text (py "b"); LiClose; ListClose ul;
        LiClose; ListClose ul]
       (mkState [] [] [] true)
  /\ list_stack (mkState [] [] [] true) = [].
Proof.
  assert (H : flush (mkState [] (py "  - b") [mkFrame ul 0 None] true)
              = Ok [ListOpen ul; Li; Text (py "b"); LiClose; ListClose ul;
                    LiClose; ListClose ul]
                   (mkState [] [] [] true))
    by (vm_compute; reflexivity).
  split; [exact H|].
  destruct (@flush_drains _ _ _ H) as [E _]. exact E.
Defined.

Lemma close_all_pairs stack :
  close_all stack
  = flat_map (fun f => [LiClose; ListClose (frame_type f)]) stack.
Proof.
  unfold close_all. induction stack as [|f rest IH]; [reflexivity|].
  cbn [pop_while flat_map app]. rewrite <- IH.
  now destruct (pop_while (fun _ => true) rest).
Qed.

(** X12. With no pending line, [flush] returns the pair [</li>] and the
    closing tag of its kind for every open frame, the innermost frame
    first, and nothing else. *)
Theorem flush_closes_every_frame (s : State) :
  current_line s = [] ->
  flush s
  = Ok (flat_map (fun f => [LiClose; ListClose (frame_type f)])
          (list_stack s))
       (set_list_stack [] s).
Proof.
  destruct s as [b c k i]; cbn [current_line]. intros ->.
  unfold flush. do 3 step. rewrite _close_lists_run. step.
  fold (close_all k). now rewrite close_all_pairs.
Qed.

(** An ordered list open inside an unordered one. *)
Lemma flush_closes_witness :
  flush (mkState [] [] [mkFrame ol 2 (Some 1%N); mkFrame ul 0 None] true)
  = Ok [LiClose; ListClose ol; LiClose; ListClose ul]
       (mkState [] [] [] true).
Proof.
  apply (@flush_closes_every_frame
           (mkState [] [] [mkFrame ol 2 (Some 1%N); mkFrame ul 0 None] true)).
  reflexivity.
Defined.

(** X28. Whenever a call of [flush()] returns, on any state, a second call
    returns the empty list of fragments and leaves the state as it is. *)
Theorem flush_twice_returns_nothing (s : State) (out : list fragment)
    (s' : State) :
  flush s = Ok out s' -> flush s' = Ok [] s'.
Proof.
  intros H. apply flush_text in H. destruct H as (_ & Hc & Hk).
  destruct s' as [b c k i]; cbn in Hc, Hk; subst.
  reflexivity.
Qed.

(** The pending item ["- a"] flushed, then a second [flush()]. *)
Lemma flush_twice_witness :
  flush (mkState [] (py "- a") [] false)
  = Ok [ListOpen ul; Li; Text (py "a"); LiClose; ListClose ul]
       (mkState [] [] [] true)
  /\ flush (mkState [] [] [] true) = Ok [] (mkState [] [] [] true).
Proof.
  assert (H : flush (mkState [] (py "- a") [] false)
              = Ok [ListOpen ul; Li; Text (py "a"); LiClose; ListClose ul]
                   (mkState [] [] [] true))
    by (vm_compute; reflexivity).
  split; [exact H | exact (@flush_twice_returns_nothing _ _ _ H)].
Defined.

(** ** What a list item leaves *)

Lemma item_step_top t number content indent stack i out stack' i' :
  item_step t number content indent stack i = Done out stack' i' ->
  (exists f rest,
      stack' = f :: rest /\ frame_type f = t /\ frame_indent f = indent) /\
  i' = true /\
  exists before tag,
    out = before ++ [tag; Text content] /\ is_li_open tag = true.
Proof.
  unfold item_step.
  pose proof (@pop_while_deeper_top indent stack) as Htop.
  destruct (pop_while (deeper indent) stack) as [closed left].
  cbn [snd] in Htop.
  destruct (starts_new_list left t indent) eqn:Hnew.
  - destruct t.
    + cbn [last_number]. destruct number as [n|]; [|discriminate].
      intros H; inversion H; subst; clear H.
      split; [now eexists; eexists|]. split; [reflexivity|].
      exists (closed ++ [OlOpen (Some n)]).
      exists (if not_next (Some n) n then LiValue (Some n) else Li).
      split; [now rewrite <- app_assoc | now destruct (not_next (Some n) n)].
    + intros H; inversion H; subst; clear H.
      split; [now eexists; eexists|]. split; [reflexivity|].
      exists (closed ++ [ListOpen ul]), Li.
      split; [now rewrite <- app_assoc | reflexivity].
  - destruct left as [|f rest]; [discriminate Hnew|].
    cbn in Hnew. apply orb_false_iff in Hnew. destruct Hnew as [Hlt Hty].
    apply negb_false_iff in Hty. apply Nat.ltb_ge in Hlt.
    specialize (Htop f rest eq_refl).
    assert (Hf : frame_type f = t)
      by (destruct (frame_type f), t; (reflexivity || discriminate)).
    assert (Hi : frame_indent f = indent) by lia.
    destruct t.
    + destruct (last_number f) as [last|]; [|discriminate].
      intros H; inversion H; subst; clear H.
      split; [eexists; eexists; split; [reflexivity|]; now split|].
      split; [reflexivity|].
      exists closed.
      exists (if not_next number last then LiValue number else Li).
      split; [reflexivity | now destruct (not_next number last)].
    + intros H; inversion H; subst; clear H.
      split; [eexists; eexists; split; [reflexivity|]; now split|].
      split; [reflexivity|].
      exists closed, Li. split; reflexivity.
Qed.

(** X13. When [_handle_list_item] returns, the innermost frame of the list
    stack has the kind and the indent of the item, the item flag is set,
    and the fragments returned end with an opening [<li>] tag and the
    content of the item. *)
Theorem item_leaves_its_frame_on_top (t : list_type) (number : option N)
    (content : str) (indent : nat) (s : State) (out : list fragment)
    (s' : State) :
  _handle_list_item t number content indent s = Ok out s' ->
  (exists f rest,
      list_stack s' = f :: rest /\
      frame_type f = t /\ frame_indent f = indent) /\
  in_list_item s' = true /\
  exists before tag,
    out = before ++ [tag; Text content] /\ is_li_open tag = true.
Proof.
  destruct s as [b c k i]. rewrite _handle_list_item_run.
  destruct (item_step t number content indent k i) as [o k' i'|] eqn:E;
    [|discriminate].
  cbn [with_text]. intros H; inversion H; subst; clear H.
  cbn [list_stack in_list_item]. eapply item_step_top; eassumption.
Qed.

(** An item that comes back from a nested list. *)
Lemma item_leaves_its_frame_witness :
  _handle_list_item ul None (py "c") 0
    (mkState [] [] [mkFrame ul 2 None; mkFrame ul 0 None] true)
  = Ok [LiClose; ListClose ul; Li; Text (py "c")]
       (mkState [] [] [mkFrame ul 0 None] true)
  /\ in_list_item (mkState [] [] [mkFrame ul 0 None] true) = true.
Proof.
  assert (H : _handle_list_item ul None (py "c") 0
                (mkState [] [] [mkFrame ul 2 None; mkFrame ul 0 None] true)
              = Ok [LiClose; ListClose ul; Li; Text (py "c")]
                   (mkState [] [] [mkFrame ul 0 None] true))
    by (vm_compute; reflexivity).
  split; [exact H|].
  destruct (@item_leaves_its_frame_on_top _ _ _ _ _ _ _ H) as (_ & F & _).
  exact F.
Defined.

(** X14. With an ordered list open at the indent of the item, an item whose
    number follows the last number of the list gets the plain [<li>], any
    other number gets [<li value='N'>]; no list is opened or closed and the
    list takes the number as its last number. *)
Theorem sibling_number_marker (m n : N) (content : str) (indent : nat)
    (b c : str) (rest : list Frame) (i : bool) :
  _handle_list_item ol (Some m) content indent
    (mkState b c (mkFrame ol indent (Some n) :: rest) i)
  = Ok [if N.eqb m (n + 1) then Li else LiValue (Some m); Text content]
       (mkState b c (mkFrame ol indent (Some m) :: rest) true).
Proof.
  rewrite _handle_list_item_run. unfold item_step.
  cbn [pop_while]. unfold deeper at 1. cbn [frame_indent].
  rewrite Nat.ltb_irrefl. cbn [starts_new_list frame_indent frame_type].
  rewrite Nat.ltb_irrefl. cbn [list_type_eqb negb orb last_number not_next
                               frame_type frame_indent with_text app].
  now destruct (N.eqb m (n + 1)).
Qed.

(** ** Lines and the text attributes *)

(** X15. [_process_line] neither reads nor writes [buffer] and
    [current_line]: what it returns or raises and what it does to the list
    stack and the item flag are the same whatever these two hold, and it
    leaves them as they are. *)
Theorem line_handlers_ignore_text (line b c b' c' : str) (k : list Frame)
    (i : bool) :
  core_of (_process_line line (mkState b c k i))
  = core_of (_process_line line (mkState b' c' k i)) /\
  buffer (final (_process_line line (mkState b c k i))) = b /\
  current_line (final (_process_line line (mkState b c k i))) = c.
Proof.
  rewrite !_process_line_run. destruct (line_step line k i); now cbn.
Qed.

(** X16. A line adds at most one frame to the list stack, whether
    [_process_line] returns or raises. *)
Theorem stack_grows_by_one (line : str) (s : State) :
  length (list_stack (final (_process_line line s)))
  <= S (length (list_stack s)).
Proof.
  destruct s as [b c k i]. rewrite _process_line_run.
  assert (G : length (outcome_stack (line_step line k i)) <= S (length k)).
  { unfold line_step.
    assert (I : forall t number content indent,
               length (outcome_stack (item_step t number content indent k i))
               <= S (length k)).
    { intros t number content indent. unfold item_step.
      pose proof (pop_while_length (deeper indent) k) as L.
      destruct (pop_while (deeper indent) k) as [closed left]. cbn [snd] in L.
      destruct (starts_new_list left t indent), t; cbn [last_number];
        try (cbn; lia).
      - destruct number; cbn; lia.
      - destruct left as [|f rest]; [cbn; lia|].
        destruct (last_number f); cbn in *; lia. }
    destruct (is_header (lstrip line)).
    { destruct (match_header (lstrip line)) as [[? ?]|]; cbn; lia. }
    destruct (is_ordered (lstrip line)).
    { destruct (match_ordered (lstrip line)) as [[digits ?]|]; [|cbn; lia].
      destruct (exceeds_int_limit digits); [cbn; lia | apply I]. }
    destruct (startswith (py "- ") (lstrip line)); [apply I|].
    destruct (str_eqb (strip (lstrip line)) []); [cbn; lia|].
    destruct i; [cbn; lia|]. cbn [outcome_stack].
    pose proof (pop_while_length
                  (deeper (length line - length (lstrip line))) k). lia. }
  destruct (line_step line k i); exact G.
Qed.

(** ** Indented headers *)

Lemma lstrip_app_space ws l :
  forallb isspace ws = true -> lstrip (ws ++ l) = lstrip l.
Proof.
  induction ws as [|c t IH]; [reflexivity|].
  cbn [forallb app lstrip]. intros H. apply andb_true_iff in H.
  destruct H as [-> Ht]. exact (IH Ht).
Qed.

(** X17. White space before a header does not count: an indented header
    line is handled as the same line without its indent. *)
Theorem indented_header_is_a_header (ws line : str) (s : State) :
  forallb isspace ws = true ->
  is_header (lstrip line) = true ->
  _process_line (ws ++ line) s = _process_line line s.
Proof.
  intros Hws Hh. unfold _process_line.
  now rewrite (lstrip_app_space _ line Hws), Hh.
Qed.

(** A header indented by two spaces under an open list. *)
Lemma indented_header_witness :
  _process_line (py "  " ++ py "## T") (mkState [] [] [mkFrame ul 4 None] true)
  = Ok [Header 2 (py "T")] (mkState [] [] [] true).
Proof.
  rewrite (@indented_header_is_a_header (py "  ") (py "## T")
             (mkState [] [] [mkFrame ul 4 None] true));
    [vm_compute; reflexivity | reflexivity | reflexivity].
Defined.

(** ** Deeper lists under an item *)

Lemma nested_bounded f rest :
  nested (f :: rest) ->
  Forall (fun g => frame_indent g <= frame_indent f) (f :: rest).
Proof.
  revert f; induction rest as [|g rest IH]; intros f H.
  - constructor; [lia | constructor].
  - cbn [nested] in H. destruct H as [Hfg Hrest].
    constructor; [lia|].
    specialize (IH g Hrest).
    eapply Forall_impl; [|exact IH]. cbn. intros a Ha. lia.
Qed.

Lemma left_is_bounded indent stack :
  nested stack ->
  Forall (fun g => frame_indent g <= indent)
    (snd (pop_while (deeper indent) stack)).
Proof.
  intros H.
  pose proof (@nested_pop_while (deeper indent) _ H) as Hn.
  pose proof (@pop_while_deeper_top indent stack) as Htop.
  destruct (snd (pop_while (deeper indent) stack)) as [|f rest];
    [constructor|].
  specialize (Htop f rest eq_refl).
  eapply Forall_impl; [|exact (@nested_bounded f rest Hn)].
  cbn. intros a Ha. lia.
Qed.

(** X18. On a list stack whose indents never decrease towards the top (as
    in every state that calls reach), a returned [_handle_list_item] leaves
    no frame deeper than the item: every list indented more than the item
    has been closed. *)
Theorem item_closes_deeper_lists (t : list_type) (number : option N)
    (content : str) (indent : nat) (s : State) (out : list fragment)
    (s' : State) :
  nested (list_stack s) ->
  _handle_list_item t number content indent s = Ok out s' ->
  Forall (fun f => frame_indent f <= indent) (list_stack s').
Proof.
  destruct s as [b c k i]; cbn [list_stack]. intros Hn.
  rewrite _handle_list_item_run. unfold item_step.
  pose proof (@left_is_bounded indent k Hn) as Hleft.
  destruct (pop_while (deeper indent) k) as [closed left]. cbn [snd] in Hleft.
  destruct (starts_new_list left t indent), t; cbn [last_number with_text].
  - destruct number; [|discriminate]. cbn [with_text].
    intros H; inversion H; subst. constructor; [cbn; lia | exact Hleft].
  - intros H; inversion H; subst. constructor; [cbn; lia | exact Hleft].
  - destruct left as [|f rest]; [discriminate|].
    destruct (last_number f); [|discriminate]. cbn [with_text].
    intros H; inversion H; subst.
    inversion Hleft; subst. constructor; [cbn; assumption | assumption].
  - intros H; inversion H; subst. exact Hleft.
Qed.

(** An item at indent 1 under lists at indents 0, 2 and 4. *)
Lemma item_closes_deeper_witness :
  _handle_list_item ul None (py "x") 1
    (mkState [] []
       [mkFrame ul 4 None; mkFrame ul 2 None; mkFrame ul 0 None] true)
  = Ok [LiClose; ListClose ul; LiClose; ListClose ul;
        ListOpen ul; Li; Text (py "x")]
       (mkState [] [] [mkFrame ul 1 None; mkFrame ul 0 None] true)
  /\ Forall (fun f => frame_indent f <= 1)
       [mkFrame ul 1 None; mkFrame ul 0 None].
Proof.
  assert (H : _handle_list_item ul None (py "x") 1
                (mkState [] []
                   [mkFrame ul 4 None; mkFrame ul 2 None; mkFrame ul 0 None]
                   true)
              = Ok [LiClose; ListClose ul; LiClose; ListClose ul;
                    ListOpen ul; Li; Text (py "x")]
                   (mkState [] [] [mkFrame ul 1 None; mkFrame ul 0 None] true))
    by (vm_compute; reflexivity).
  split; [exact H|].
  refine (@item_closes_deeper_lists _ _ _ _ _ _ _ _ H).
  cbn. repeat split; lia.
Defined.

(** ** A stream, line by line *)

(** X19. The chunks of a stream matter only through the lines they make
    [add_chunk] and [flush] dispatch: the fragments returned by the calls
    are those returned by [_process_line] on each dispatched line in turn,
    followed by the closing pairs of [_close_lists]; the stream raises
    exactly when one of these lines does. *)
Theorem stream_is_its_lines (chunks : list str) :
  returned (feed chunks init)
  = returned ((out <- process_each (dispatched [] chunks) ;;
               closing <- _close_lists ;;
               ret (out ++ closing)) init).
Proof.
  rewrite !returned_core. unfold init. rewrite feed_core.
  unfold bind at 1.
  pose proof (process_each_core (dispatched [] chunks) [] [] [] false) as P.
  destruct (process_each (dispatched [] chunks) (mkState [] [] [] false))
    as [o [b c k i]|]; cbn [core_of] in P; rewrite <- P;
    cbn [finish and_then list_stack in_list_item core_of outcome_out];
    [|reflexivity].
  unfold finish; cbn [and_then]. unfold bind at 1.
  rewrite _close_lists_run. reflexivity.
Qed.

(** ** A chunk that is one line *)

Lemma split_nl_one_line line :
  forallb not_nl line = true -> split_nl (line ++ [nl]) = [line; []].
Proof.
  intros H. rewrite split_nl_app, (split_nl_no_nl _ H).
  cbn [removelast last split_nl app glue]. rewrite Ascii.eqb_refl.
  cbn [glue]. now rewrite app_nil_r.
Qed.

(** X20. A chunk made of a line and its line feed has the pending line
    with that line appended dispatched once: [add_chunk] returns what
    [_process_line] returns for it and leaves [current_line] and [buffer]
    empty; when the line raises, [current_line] keeps the line and [buffer]
    keeps the chunk. *)
Theorem one_line_chunk_is_dispatched (line : str) (s : State) :
  buffer s = [] ->
  forallb not_nl line = true ->
  add_chunk (line ++ [nl]) s
  = (out <- _process_line (current_line s ++ line) ;;
     modify (set_current_line []) ;;;
     modify (set_buffer []) ;;;
     ret out)
      (set_buffer (line ++ [nl])
         (set_current_line (current_line s ++ line) s)).
Proof.
  destruct s as [b c k i]; cbn [buffer current_line]. intros -> Hnl.
  unfold add_chunk, _process_buffer. do 2 step. cbn [app].
  rewrite (split_nl_one_line _ Hnl).
  cbn [removelast last process_complete_lines].
  unfold bind, modify, ret, gets, set_current_line, set_buffer;
    cbn [buffer current_line list_stack in_list_item].
  rewrite !_process_line_run.
  destruct (line_step (c ++ line) k i); cbn; [|reflexivity].
  now rewrite app_nil_r.
Qed.

(** The end of a pending header, and the end of a pending header without
    text. *)
Lemma one_line_chunk_witness :
  add_chunk (py "tle" ++ [nl]) (mkState [] (py "# Ti") [] false)
  = Ok [Header 1 (py "Title")] (mkState [] [] [] false)
  /\ add_chunk ([] ++ [nl]) (mkState [] (py "# ") [] false)
     = Raise AttributeError (mkState [nl] (py "# ") [] false).
Proof.
  split.
  - rewrite (@one_line_chunk_is_dispatched (py "tle")
               (mkState [] (py "# Ti") [] false));
      [vm_compute; reflexivity | reflexivity | reflexivity].
  - rewrite (@one_line_chunk_is_dispatched []
               (mkState [] (py "# ") [] false));
      [vm_compute; reflexivity | reflexivity | reflexivity].
Defined.

(** * Properties of [formatCSVFile] *)

Example formatCSVFile_examples :
  formatCSVFile (py "a   b" ++ [nl] ++ py "x NaN" ++ [cr; nl] ++ py " c" ++ [nl])
  = py "a b" ++ [nl] ++ py " c" /\
  formatCSVFile [] = [] /\
  splitlines (py "a" ++ [nl; cr] ++ py "b" ++ [cr; nl]) = [py "a"; []; py "b"].
Proof. vm_compute. repeat split. Qed.

(** ** The lines that are removed *)

Lemma nan_indices_from index ls n :
  In n (nan_indices index ls) -> index <= n.
Proof.
  revert index; induction ls as [|l rest IH]; intros index; [contradiction|].
  cbn [nan_indices]. destruct (contains (py "NaN") l).
  - intros [<-|H]; [lia|]. apply IH in H. lia.
  - intros H. apply IH in H. lia.
Qed.

Lemma existsb_eqb_false index l :
  (forall n, In n l -> n <> index) -> existsb (Nat.eqb index) l = false.
Proof.
  intros H. induction l as [|a t IH]; [reflexivity|].
  cbn [existsb]. rewrite IH by (intros n Hn; apply H; now right).
  destruct (Nat.eqb_spec index a) as [->|]; [|reflexivity].
  exfalso. now apply (H a); [left|].
Qed.

Lemma keep_by_index_filter index before ls :
  (forall n, In n before -> n < index) ->
  keep_by_index index (before ++ nan_indices index ls) ls
  = filter (fun l => negb (contains (py "NaN") l)) ls.
Proof.
  revert index before; induction ls as [|l rest IH]; intros index before Hb;
    [reflexivity|].
  cbn [nan_indices keep_by_index filter].
  destruct (contains (py "NaN") l); cbn [negb].
  - assert (E : existsb (Nat.eqb index)
                  (before ++ index :: nan_indices (S index) rest) = true).
    { rewrite existsb_app. cbn [existsb]. rewrite Nat.eqb_refl.
      now rewrite orb_true_r. }
    rewrite E.
    change (before ++ index :: nan_indices (S index) rest)
      with (before ++ [index] ++ nan_indices (S index) rest).
    rewrite app_assoc. apply IH.
    intros n Hn. apply in_app_or in Hn. destruct Hn as [Hn|[<-|[]]];
      [apply Hb in Hn; lia | lia].
  - rewrite existsb_eqb_false.
    + f_equal. apply IH. intros n Hn. apply Hb in Hn. lia.
    + intros n Hn. apply in_app_or in Hn. destruct Hn as [Hn|Hn].
      * apply Hb in Hn. lia.
      * apply nan_indices_from in Hn. lia.
Qed.

Lemma formatCSVFile_drops_nan_lines_eq sectorStats :
  formatCSVFile sectorStats
  = collapse_blanks
      (strip
         (join_nl
            (filter (fun l => negb (contains (py "NaN") l))
               (splitlines sectorStats)))).
Proof.
  unfold formatCSVFile.
  change (nan_indices 0 (splitlines sectorStats))
    with ([] ++ nan_indices 0 (splitlines sectorStats)).
  rewrite keep_by_index_filter; [reflexivity | contradiction].
Qed.

(** X21. The index bookkeeping of [formatCSVFile] removes the lines that
    contain ["NaN"] and no other: the text that is then stripped and
    collapsed is the join of the other lines, in their order. *)
Theorem formatCSVFile_drops_nan_lines (sectorStats : str) :
  formatCSVFile sectorStats
  = collapse_blanks
      (strip
         (join_nl
            (filter (fun l => negb (contains (py "NaN") l))
               (splitlines sectorStats)))).
Proof. apply formatCSVFile_drops_nan_lines_eq. Qed.

(** ** Blanks in the result *)

Lemma collapse_nil : collapse_blanks [] = [].
Proof. unfold collapse_blanks. now simp re_sub. Qed.

Lemma collapse_blank c t :
  is_blank c = true ->
  collapse_blanks (c :: t) = " "%char :: collapse_blanks (drop_blanks t).
Proof.
  intros H. unfold collapse_blanks.
  rewrite (@re_sub_match match_blanks match_blanks_shorter (py " ") []
             c t [] (drop_blanks t)); [reflexivity|].
  cbn [match_blanks]. now rewrite H.
Qed.

Lemma collapse_other c t :
  is_blank c = false -> collapse_blanks (c :: t) = c :: collapse_blanks t.
Proof.
  intros H. unfold collapse_blanks. simp re_sub.
  generalize (inspect (match_blanks (c :: t))). intros [[[x r]|] e].
  - assert (N : match_blanks (c :: t) = None)
      by (cbn [match_blanks]; now rewrite H).
    congruence.
  - reflexivity.
Qed.

Lemma drop_blanks_head s :
  match drop_blanks s with c :: _ => is_blank c = false | [] => True end.
Proof.
  induction s as [|c t IH]; [exact I|].
  cbn [drop_blanks]. destruct (is_blank c) eqn:E; [exact IH | exact E].
Qed.

(** An induction on the steps of [collapse_blanks]. *)
Lemma collapse_ind (P : str -> str -> Prop) :
  P [] [] ->
  (forall c t, is_blank c = true ->
               P (drop_blanks t) (collapse_blanks (drop_blanks t)) ->
               P (c :: t) (" "%char :: collapse_blanks (drop_blanks t))) ->
  (forall c t, is_blank c = false ->
               P t (collapse_blanks t) ->
               P (c :: t) (c :: collapse_blanks t)) ->
  forall s, P s (collapse_blanks s).
Proof.
  intros Hnil Hblank Hother s.
  assert (G : forall n s, length s <= n -> P s (collapse_blanks s)).
  { clear s. induction n as [|n IH]; intros s Hs.
    - destruct s; [rewrite collapse_nil; exact Hnil | cbn in Hs; lia].
    - destruct s as [|c t]; [rewrite collapse_nil; exact Hnil|].
      destruct (is_blank c) eqn:E.
      + rewrite (collapse_blank _ _ E). apply Hblank; [exact E|].
        apply IH. pose proof (drop_blanks_length t). cbn in Hs. lia.
      + rewrite (collapse_other _ _ E). apply Hother; [exact E|].
        apply IH. cbn in Hs. lia. }
  now apply (G (length s)).
Qed.

Lemma single_spaced_cons a o :
  single_spaced (a :: o)
  = (negb (is_blank a) || Ascii.eqb a " "%char)
    && negb (is_blank a && match o with b :: _ => is_blank b | [] => false end)
    && single_spaced o.
Proof.
  destruct o as [|b t]; cbn [single_spaced]; [|reflexivity].
  now destruct (is_blank a), (Ascii.eqb a " "%char).
Qed.

Lemma collapse_head_other s :
  match s with c :: _ => is_blank c = false | [] => True end ->
  match collapse_blanks s with c :: _ => is_blank c = false | [] => True end.
Proof.
  destruct s as [|c t]; [now rewrite collapse_nil|].
  intros E. now rewrite (collapse_other _ _ E).
Qed.

Lemma collapse_single_spaced s : single_spaced (collapse_blanks s) = true.
Proof.
  apply (collapse_ind (fun _ o => single_spaced o = true)).
  - reflexivity.
  - intros c t _ IH. rewrite single_spaced_cons, IH.
    pose proof (collapse_head_other _ (drop_blanks_head t)) as Hh.
    destruct (collapse_blanks (drop_blanks t)) as [|b r]; [reflexivity|].
    rewrite Hh. reflexivity.
  - intros c t E IH. rewrite single_spaced_cons, IH, E. reflexivity.
Qed.

(** X22. The text [formatCSVFile] returns holds no tab, carriage return,
    form feed or vertical tab, and no two blanks in a row: every run of
    blanks has become one space. *)
Theorem formatCSVFile_is_single_spaced (sectorStats : str) :
  single_spaced (formatCSVFile sectorStats) = true.
Proof. unfold formatCSVFile. apply collapse_single_spaced. Qed.

(** ** ["NaN"] in the result *)

Lemma contains_tail p c t : contains p t = true -> contains p (c :: t) = true.
Proof. intros H. cbn [contains]. rewrite H. apply orb_true_r. Qed.

Lemma contains_head p s : startswith p s = true -> contains p s = true.
Proof. intros H. destruct s; cbn [contains]; now rewrite H. Qed.

Lemma contains_cases p c t :
  contains p (c :: t) = true ->
  startswith p (c :: t) = true \/ contains p t = true.
Proof. cbn [contains]. intros H. now apply orb_true_iff in H. Qed.

Lemma contains_app_r p a w : contains p w = true -> contains p (a ++ w) = true.
Proof.
  intros H. induction a as [|c t IH]; [exact H|].
  cbn [app]. now apply contains_tail.
Qed.

Lemma startswith_app p a w :
  startswith p a = true -> startswith p (a ++ w) = true.
Proof.
  revert a; induction p as [|x p IH]; intros a; [reflexivity|].
  destruct a as [|c t]; [discriminate|]. cbn [app startswith].
  intros H. apply andb_true_iff in H. destruct H as [-> H]. now apply IH.
Qed.

Lemma contains_app_l p a w : contains p a = true -> contains p (a ++ w) = true.
Proof.
  induction a as [|c t IH]; intros H.
  - apply contains_head. cbn [contains] in H. rewrite orb_false_r in H.
    destruct p; [reflexivity | discriminate].
  - apply contains_cases in H. destruct H as [H|H].
    + apply contains_head. now apply (startswith_app _ (c :: t)).
    + cbn [app]. apply contains_tail. now apply IH.
Qed.

Lemma lstrip_suffix s : exists u, s = u ++ lstrip s.
Proof.
  induction s as [|c t [u E]]; [now exists []|].
  cbn [lstrip]. destruct (isspace c); [|now exists []].
  exists (c :: u). cbn [app]. now rewrite <- E.
Qed.

Lemma contains_strip p s : contains p (strip s) = true -> contains p s = true.
Proof.
  unfold strip. intros H.
  destruct (lstrip_suffix s) as [u Eu].
  destruct (lstrip_suffix (rev (lstrip s))) as [v Ev].
  apply (f_equal (@rev ascii)) in Ev. rewrite rev_involutive, rev_app_distr in Ev.
  rewrite Eu. apply contains_app_r. rewrite Ev. now apply contains_app_l.
Qed.

Lemma drop_blanks_suffix s : exists u, s = u ++ drop_blanks s.
Proof.
  induction s as [|c t [u E]]; [now exists []|].
  cbn [drop_blanks]. destruct (is_blank c); [|now exists []].
  exists (c :: u). cbn [app]. now rewrite <- E.
Qed.

Lemma blank_is_not_solid_head a :
  is_blank a = false -> Ascii.eqb a " "%char = false.
Proof.
  intros H. destruct (Ascii.eqb_spec a " "%char) as [->|]; [|reflexivity].
  discriminate H.
Qed.

Lemma startswith_collapse q s :
  solid q = true ->
  startswith q (collapse_blanks s) = true -> startswith q s = true.
Proof.
  revert s; induction q as [|a q IH]; intros s Hq; [reflexivity|].
  cbn [solid forallb] in Hq. apply andb_true_iff in Hq.
  destruct Hq as [Ha Hq]. apply negb_true_iff in Ha.
  destruct s as [|c t]; [now rewrite collapse_nil|].
  destruct (is_blank c) eqn:E.
  - rewrite (collapse_blank _ _ E). cbn [startswith].
    now rewrite (blank_is_not_solid_head _ Ha).
  - rewrite (collapse_other _ _ E). cbn [startswith].
    intros H. apply andb_true_iff in H. destruct H as [-> H].
    now apply IH.
Qed.

Lemma contains_collapse p s :
  solid p = true ->
  contains p (collapse_blanks s) = true -> contains p s = true.
Proof.
  intros Hp.
  apply (collapse_ind (fun s o => contains p o = true -> contains p s = true)).
  - exact (fun H => H).
  - intros c t E IH H. apply contains_cases in H. destruct H as [H|H].
    + destruct p as [|a q]; [reflexivity|].
      cbn [solid forallb] in Hp. apply andb_true_iff in Hp.
      destruct Hp as [Ha _]. apply negb_true_iff in Ha.
      cbn [startswith] in H.
      now rewrite (blank_is_not_solid_head _ Ha) in H.
    + apply contains_tail. destruct (drop_blanks_suffix t) as [u Eu].
      rewrite Eu. apply contains_app_r. now apply IH.
  - intros c t E IH H. apply contains_cases in H. destruct H as [H|H].
    + apply contains_head. destruct p as [|a q]; [reflexivity|].
      cbn [solid forallb] in Hp. apply andb_true_iff in Hp.
      destruct Hp as [_ Hq].
      cbn [startswith] in H |- *. apply andb_true_iff in H.
      destruct H as [-> H]. now apply startswith_collapse.
    + apply contains_tail. now apply IH.
Qed.

Lemma startswith_before_nl p l z :
  forallb not_nl p = true ->
  startswith p (l ++ nl :: z) = true -> startswith p l = true.
Proof.
  revert l; induction p as [|a p IH]; intros l Hp; [reflexivity|].
  cbn [forallb] in Hp. apply andb_true_iff in Hp. destruct Hp as [Ha Hp].
  unfold not_nl in Ha. apply negb_true_iff in Ha.
  destruct l as [|c t]; cbn [app startswith].
  - now rewrite Ha.
  - intros H. apply andb_true_iff in H. destruct H as [-> H]. now apply IH.
Qed.

Lemma contains_across_nl a p l z :
  forallb not_nl (a :: p) = true ->
  contains (a :: p) (l ++ nl :: z) = true ->
  contains (a :: p) l = true \/ contains (a :: p) z = true.
Proof.
  intros Hp. induction l as [|c t IH]; intros H.
  - cbn [app] in H. apply contains_cases in H. destruct H as [H|H]; [|now right].
    cbn [forallb] in Hp. apply andb_true_iff in Hp. destruct Hp as [Ha _].
    unfold not_nl in Ha. apply negb_true_iff in Ha.
    cbn [startswith] in H. now rewrite Ha in H.
  - cbn [app] in H. apply contains_cases in H. destruct H as [H|H].
    + left. apply contains_head.
      now apply (startswith_before_nl (a :: p) (c :: t) z).
    + destruct (IH H) as [G|G]; [left; now apply contains_tail | now right].
Qed.

Lemma contains_join a p ls :
  forallb not_nl (a :: p) = true ->
  contains (a :: p) (join_nl ls) = true ->
  exists l, In l ls /\ contains (a :: p) l = true.
Proof.
  intros Hp. induction ls as [|l rest IH]; intros H; [discriminate|].
  destruct rest as [|l2 rest'].
  - exists l. split; [now left | exact H].
  - change (join_nl (l :: l2 :: rest'))
      with (l ++ nl :: join_nl (l2 :: rest')) in H.
    apply (contains_across_nl _ _ _ _ Hp) in H. destruct H as [H|H].
    + exists l. split; [now left | exact H].
    + destruct (IH H) as [l' [Hin Hc]]. exists l'. split; [now right | exact Hc].
Qed.

(** X23. The text [formatCSVFile] returns never contains ["NaN"], whatever
    the text it is given. *)
Theorem formatCSVFile_has_no_nan (sectorStats : str) :
  contains (py "NaN") (formatCSVFile sectorStats) = false.
Proof.
  destruct (contains (py "NaN") (formatCSVFile sectorStats)) eqn:E;
    [|reflexivity].
  rewrite formatCSVFile_drops_nan_lines_eq in E.
  apply (contains_collapse (py "NaN") _ eq_refl) in E.
  apply contains_strip in E.
  apply (contains_join "N"%char (py "aN") _ eq_refl) in E.
  destruct E as [l [Hin Hc]].
  apply filter_In in Hin. destruct Hin as [_ Hf].
  change (py "NaN") with ("N"%char :: py "aN") in Hf.
  rewrite Hc in Hf. discriminate.
Qed.

(** ** A result given back to [formatCSVFile] *)

Lemma splitlines_no_break s : Forall (fun l => no_break l = true) (splitlines s).
Proof.
  induction s as [|c t IH]; [constructor|].
  cbn [splitlines]. destruct (is_linebreak c) eqn:E.
  - constructor; [reflexivity|].
    destruct t as [|c2 t2]; [constructor|].
    destruct (Ascii.eqb c cr && Ascii.eqb c2 nl) eqn:E2; [|exact IH].
    apply andb_true_iff in E2. destruct E2 as [_ E2].
    apply Ascii.eqb_eq in E2. subst c2.
    cbn [splitlines] in IH. change (is_linebreak nl) with true in IH.
    cbn iota in IH. inversion IH as [|? ? _ Ht]; subst.
    destruct t2 as [|c3 t3]; [constructor|].
    change (Ascii.eqb nl cr) with false in Ht. exact Ht.
  - destruct (splitlines t) as [|h r].
    + constructor; [|constructor]. unfold no_break. cbn [forallb].
      now rewrite E.
    + inversion IH; subst. constructor; [|assumption].
      unfold no_break in *. cbn [forallb]. now rewrite E.
Qed.

Lemma only_nl_app u v :
  only_nl_breaks (u ++ v) = only_nl_breaks u && only_nl_breaks v.
Proof. apply forallb_app. Qed.

Lemma no_break_only_nl l : no_break l = true -> only_nl_breaks l = true.
Proof.
  unfold no_break, only_nl_breaks. intros H.
  rewrite forallb_forall in *. intros c Hc. now rewrite (H c Hc).
Qed.

Lemma join_only_nl ls :
  Forall (fun l => no_break l = true) ls -> only_nl_breaks (join_nl ls) = true.
Proof.
  induction ls as [|l rest IH]; intros H; [reflexivity|].
  inversion H as [|? ? Hl Hrest]; subst.
  destruct rest as [|l2 rest']; [now apply no_break_only_nl|].
  change (join_nl (l :: l2 :: rest')) with (l ++ nl :: join_nl (l2 :: rest')).
  rewrite only_nl_app, (no_break_only_nl _ Hl).
  change (only_nl_breaks (nl :: join_nl (l2 :: rest')))
    with (only_nl_breaks (join_nl (l2 :: rest'))).
  now apply IH.
Qed.

Lemma Forall_filter {A} (P : A -> Prop) f (l : list A) :
  Forall P l -> Forall P (filter f l).
Proof.
  induction 1 as [|a l Ha Hl IH]; [constructor|].
  cbn [filter]. destruct (f a); [constructor|]; assumption.
Qed.

Lemma forallb_rev {A} (f : A -> bool) l : forallb f (rev l) = forallb f l.
Proof.
  induction l as [|a t IH]; [reflexivity|].
  cbn [rev forallb]. rewrite forallb_app, IH. cbn [forallb].
  now rewrite andb_true_r, andb_comm.
Qed.

Lemma forallb_lstrip f s : forallb f s = true -> forallb f (lstrip s) = true.
Proof.
  intros H. destruct (lstrip_suffix s) as [u E]. rewrite E in H.
  rewrite forallb_app in H. now apply andb_true_iff in H.
Qed.

Lemma forallb_strip f s : forallb f s = true -> forallb f (strip s) = true.
Proof.
  intros H. unfold strip. rewrite forallb_rev. apply forallb_lstrip.
  rewrite forallb_rev. now apply forallb_lstrip.
Qed.

Lemma forallb_drop_blanks f s :
  forallb f s = true -> forallb f (drop_blanks s) = true.
Proof.
  intros H. destruct (drop_blanks_suffix s) as [u E]. rewrite E in H.
  rewrite forallb_app in H. now apply andb_true_iff in H.
Qed.

Lemma collapse_only_nl s :
  only_nl_breaks s = true -> only_nl_breaks (collapse_blanks s) = true.
Proof.
  apply (collapse_ind
           (fun s o => only_nl_breaks s = true -> only_nl_breaks o = true)).
  - exact (fun H => H).
  - intros c t _ IH H. unfold only_nl_breaks in *. cbn [forallb] in H |- *.
    apply andb_true_iff in H. destruct H as [_ H].
    change (negb (is_linebreak " "%char) || Ascii.eqb " "%char nl) with true.
    cbn [andb]. apply IH. now apply forallb_drop_blanks.
  - intros c t _ IH H. unfold only_nl_breaks in *. cbn [forallb] in H |- *.
    apply andb_true_iff in H. destruct H as [-> H]. now apply IH.
Qed.

Lemma formatCSVFile_only_nl s : only_nl_breaks (formatCSVFile s) = true.
Proof.
  rewrite formatCSVFile_drops_nan_lines_eq.
  apply collapse_only_nl. apply forallb_strip. apply join_only_nl.
  apply Forall_filter. apply splitlines_no_break.
Qed.

Lemma lstrip_starts_solid s : starts_solid (lstrip s) = true.
Proof.
  induction s as [|c t IH]; [reflexivity|].
  cbn [lstrip]. destruct (isspace c) eqn:E; [exact IH|].
  unfold starts_solid. cbn [hd]. now rewrite E.
Qed.

Lemma hd_app_nonempty {A} (d : A) u v : u <> [] -> hd d (u ++ v) = hd d u.
Proof. destruct u; [congruence | reflexivity]. Qed.

Lemma last_rev_hd {A} (d : A) l : last (rev l) d = hd d l.
Proof.
  destruct l as [|a t]; [reflexivity|]. cbn [rev hd]. apply last_last.
Qed.

Lemma hd_rev_last {A} (d : A) l : hd d (rev l) = last l d.
Proof. rewrite <- (rev_involutive l) at 2. now rewrite last_rev_hd. Qed.

Lemma strip_starts_solid s : starts_solid (strip s) = true.
Proof.
  unfold strip.
  destruct (lstrip_suffix (rev (lstrip s))) as [u E].
  pose proof (lstrip_starts_solid s) as Hy.
  destruct (lstrip (rev (lstrip s))) as [|c z] eqn:Ez; [reflexivity|].
  apply (f_equal (@rev ascii)) in E.
  rewrite rev_involutive, rev_app_distr in E.
  unfold starts_solid in *. rewrite E in Hy.
  rewrite hd_app_nonempty in Hy; [exact Hy|].
  cbn [rev]. now destruct (rev z).
Qed.

Lemma strip_ends_solid s : ends_solid (strip s) = true.
Proof.
  unfold strip, ends_solid. rewrite last_rev_hd.
  apply lstrip_starts_solid.
Qed.

Lemma blank_is_space c : is_blank c = true -> isspace c = true.
Proof.
  unfold is_blank, isspace. intros H.
  repeat (apply orb_true_iff in H; destruct H as [H|H]);
    apply Nat.eqb_eq in H; rewrite H; reflexivity.
Qed.

Lemma solid_not_blank c : isspace c = false -> is_blank c = false.
Proof.
  intros H. destruct (is_blank c) eqn:E; [|reflexivity].
  apply blank_is_space in E. congruence.
Qed.

Lemma collapse_starts_solid s :
  starts_solid s = true -> starts_solid (collapse_blanks s) = true.
Proof.
  destruct s as [|c t]; [now rewrite collapse_nil|].
  unfold starts_solid. cbn [hd]. intros H. apply negb_true_iff in H.
  rewrite (collapse_other _ _ (solid_not_blank _ H)). cbn [hd].
  now rewrite H.
Qed.

Lemma drop_blanks_last s d :
  is_blank (last s d) = false -> s <> [] ->
  drop_blanks s <> [] /\ last (drop_blanks s) d = last s d.
Proof.
  induction s as [|c t IH]; intros H Hs; [congruence|].
  cbn [drop_blanks]. destruct (is_blank c) eqn:E; [|split; [discriminate|reflexivity]].
  destruct t as [|c2 t2]; [cbn in H; congruence|].
  rewrite last_cons_cons in H |- *. apply IH; [exact H | discriminate].
Qed.

Lemma collapse_last s d :
  s <> [] -> is_blank (last s d) = false ->
  collapse_blanks s <> [] /\ last (collapse_blanks s) d = last s d.
Proof.
  apply (collapse_ind
           (fun s o => s <> [] -> is_blank (last s d) = false ->
                       o <> [] /\ last o d = last s d)).
  - congruence.
  - intros c t E IH _ H. split; [discriminate|].
    destruct t as [|c2 t2]; [cbn in H; congruence|].
    rewrite last_cons_cons in H.
    destruct (@drop_blanks_last (c2 :: t2) d H ltac:(discriminate)) as [Hne Hl].
    rewrite <- Hl in H. destruct (IH Hne H) as [Hne' Hl'].
    rewrite last_cons_cons, <- Hl, <- Hl'.
    destruct (collapse_blanks (drop_blanks (c2 :: t2))); [congruence|reflexivity].
  - intros c t E IH _ H. split; [discriminate|].
    destruct t as [|c2 t2]; [now rewrite collapse_nil|].
    rewrite last_cons_cons in H.
    destruct (IH ltac:(discriminate) H) as [Hne' Hl'].
    rewrite last_cons_cons, <- Hl'.
    destruct (collapse_blanks (c2 :: t2)); [congruence|reflexivity].
Qed.

Lemma collapse_ends_solid s :
  ends_solid s = true -> ends_solid (collapse_blanks s) = true.
Proof.
  destruct s as [|c t]; [now rewrite collapse_nil|].
  unfold ends_solid. intros H. apply negb_true_iff in H.
  destruct (@collapse_last (c :: t) "a"%char ltac:(discriminate)
              (solid_not_blank _ H)) as [_ ->].
  now rewrite H.
Qed.

(** X24. The text [formatCSVFile] returns neither starts nor ends with
    white space, and the line feed is its only line boundary. *)
Theorem formatCSVFile_is_stripped (sectorStats : str) :
  starts_solid (formatCSVFile sectorStats) = true /\
  ends_solid (formatCSVFile sectorStats) = true /\
  only_nl_breaks (formatCSVFile sectorStats) = true.
Proof.
  split; [|split].
  - apply collapse_starts_solid, strip_starts_solid.
  - apply collapse_ends_solid, strip_ends_solid.
  - apply formatCSVFile_only_nl.
Qed.

Lemma join_cons_char c h r : join_nl ((c :: h) :: r) = c :: join_nl (h :: r).
Proof. destruct r; reflexivity. Qed.

Lemma splitlines_nonempty c t : splitlines (c :: t) <> [].
Proof.
  cbn [splitlines]. destruct (is_linebreak c); [discriminate|].
  destruct (splitlines t); discriminate.
Qed.

Lemma join_splitlines o :
  only_nl_breaks o = true ->
  Ascii.eqb (last o "a"%char) nl = false ->
  join_nl (splitlines o) = o.
Proof.
  induction o as [|c t IH]; intros Hb Hl; [reflexivity|].
  unfold only_nl_breaks in Hb. cbn [forallb] in Hb.
  apply andb_true_iff in Hb. destruct Hb as [Hc Ht].
  assert (IH' : t <> [] -> join_nl (splitlines t) = t).
  { intros Hne. apply IH; [exact Ht|].
    destruct t as [|c2 t2]; [congruence|]. now rewrite last_cons_cons in Hl. }
  cbn [splitlines]. destruct (is_linebreak c) eqn:E.
  - cbn [negb orb] in Hc. apply Ascii.eqb_eq in Hc. subst c.
    destruct t as [|c2 t2]; [cbn in Hl; discriminate Hl|].
    change (Ascii.eqb nl cr) with false. cbn [andb].
    pose proof (@splitlines_nonempty c2 t2) as Hne.
    specialize (IH' ltac:(discriminate)).
    destruct (splitlines (c2 :: t2)) as [|h r]; [congruence|].
    change (join_nl ([] :: h :: r)) with (nl :: join_nl (h :: r)).
    f_equal. exact IH'.
  - destruct t as [|c2 t2]; [reflexivity|].
    pose proof (@splitlines_nonempty c2 t2) as Hne.
    specialize (IH' ltac:(discriminate)).
    destruct (splitlines (c2 :: t2)) as [|h r]; [congruence|].
    rewrite join_cons_char. f_equal. exact IH'.
Qed.

Lemma contains_in_join p l ls :
  In l ls -> contains p l = true -> contains p (join_nl ls) = true.
Proof.
  induction ls as [|l1 rest IH]; intros Hin Hc; [contradiction|].
  destruct rest as [|l2 rest'].
  - destruct Hin as [->|[]]. exact Hc.
  - change (join_nl (l1 :: l2 :: rest'))
      with (l1 ++ nl :: join_nl (l2 :: rest')).
    destruct Hin as [->|Hin].
    + now apply contains_app_l.
    + apply contains_app_r, contains_tail. now apply IH.
Qed.

Lemma filter_all {A} (f : A -> bool) l :
  (forall x, In x l -> f x = true) -> filter f l = l.
Proof.
  induction l as [|a t IH]; intros H; [reflexivity|].
  cbn [filter]. rewrite (H a (or_introl eq_refl)).
  f_equal. apply IH. intros x Hx. apply H. now right.
Qed.

Lemma lstrip_id s : starts_solid s = true -> lstrip s = s.
Proof.
  destruct s as [|c t]; [reflexivity|].
  unfold starts_solid. cbn [hd lstrip]. intros H.
  apply negb_true_iff in H. now rewrite H.
Qed.

Lemma strip_id s :
  starts_solid s = true -> ends_solid s = true -> strip s = s.
Proof.
  intros Hs He. unfold strip. rewrite (lstrip_id _ Hs), lstrip_id.
  - apply rev_involutive.
  - unfold starts_solid. rewrite hd_rev_last. exact He.
Qed.

Lemma drop_blanks_id s :
  match s with c :: _ => is_blank c = false | [] => True end ->
  drop_blanks s = s.
Proof. destruct s as [|c t]; [reflexivity|]. cbn [drop_blanks]. now intros ->. Qed.

Lemma collapse_id o : single_spaced o = true -> collapse_blanks o = o.
Proof.
  induction o as [|c t IH]; intros H; [apply collapse_nil|].
  rewrite single_spaced_cons in H.
  apply andb_true_iff in H. destruct H as [H Ht].
  apply andb_true_iff in H. destruct H as [Hc Hn].
  destruct (is_blank c) eqn:E.
  - cbn [negb orb andb] in Hc, Hn. apply Ascii.eqb_eq in Hc. subst c.
    rewrite (collapse_blank _ _ E), drop_blanks_id, (IH Ht); [reflexivity|].
    destruct t as [|b r]; [exact I|]. now apply negb_true_iff in Hn.
  - now rewrite (collapse_other _ _ E), (IH Ht).
Qed.

Lemma solid_end_is_not_nl o :
  ends_solid o = true -> Ascii.eqb (last o "a"%char) nl = false.
Proof.
  unfold ends_solid. intros H. apply negb_true_iff in H.
  destruct (Ascii.eqb_spec (last o "a"%char) nl) as [E|]; [|reflexivity].
  rewrite E in H. discriminate H.
Qed.

(** X25. [formatCSVFile] is idempotent: given one of its own results, it
    returns that text unchanged. *)
Theorem formatCSVFile_idempotent (sectorStats : str) :
  formatCSVFile (formatCSVFile sectorStats) = formatCSVFile sectorStats.
Proof.
  set (o := formatCSVFile sectorStats).
  assert (Hs : starts_solid o = true)
    by (apply collapse_starts_solid, strip_starts_solid).
  assert (He : ends_solid o = true)
    by (apply collapse_ends_solid, strip_ends_solid).
  assert (Hb : only_nl_breaks o = true) by apply formatCSVFile_only_nl.
  assert (Hj : join_nl (splitlines o) = o)
    by (apply join_splitlines; [exact Hb | now apply solid_end_is_not_nl]).
  assert (Hn : contains (py "NaN") o = false).
  { destruct (contains (py "NaN") o) eqn:E; [|reflexivity].
    unfold o in E. rewrite formatCSVFile_drops_nan_lines_eq in E.
    apply (contains_collapse (py "NaN") _ eq_refl) in E.
    apply contains_strip in E.
    apply (contains_join "N"%char (py "aN") _ eq_refl) in E.
    destruct E as [l [Hin Hc]].
    apply filter_In in Hin. destruct Hin as [_ Hf].
    change (py "NaN") with ("N"%char :: py "aN") in Hf.
    rewrite Hc in Hf. discriminate. }
  rewrite (formatCSVFile_drops_nan_lines_eq o).
  rewrite filter_all.
  - rewrite Hj, (strip_id _ Hs He). apply collapse_id.
    apply collapse_single_spaced.
  - intros l Hl. apply negb_true_iff.
    destruct (contains (py "NaN") l) eqn:E; [|reflexivity].
    rewrite <- Hn, <- Hj. symmetry. now apply (contains_in_join _ l).
Qed.

(** * The pending line of the renderer *)

(** ** No line feed in [current_line] *)

Lemma split_nl_pieces s : Forall (fun l => no_nl l = true) (split_nl s).
Proof.
  induction s as [|c t IH]; [repeat constructor|].
  cbn [split_nl]. destruct (Ascii.eqb c nl) eqn:E.
  - constructor; [reflexivity | exact IH].
  - destruct (split_nl t) as [|h r]; [repeat constructor; cbn; unfold not_nl; now rewrite E|].
    inversion IH; subst. constructor; [|assumption].
    unfold no_nl in *. cbn [forallb]. unfold not_nl at 1. now rewrite E.
Qed.

Lemma Forall_removelast {A} (P : A -> Prop) l :
  Forall P l -> Forall P (removelast l).
Proof.
  induction 1 as [|a l Ha Hl IH]; [constructor|].
  cbn [removelast]. destruct l; [constructor | now constructor].
Qed.

Lemma Forall_last {A} (P : A -> Prop) l d : Forall P l -> P d -> P (last l d).
Proof.
  induction 1 as [|a l Ha Hl IH]; intros Hd; [exact Hd|].
  destruct l; [exact Ha | rewrite last_cons_cons; now apply IH].
Qed.

Lemma no_nl_app u v : no_nl (u ++ v) = no_nl u && no_nl v.
Proof. apply forallb_app. Qed.

Lemma glue_no_nl cur ls :
  no_nl cur = true -> Forall (fun l => no_nl l = true) ls ->
  Forall (fun l => no_nl l = true) (glue cur ls).
Proof.
  intros Hc H. destruct H as [|l rest Hl Hrest]; [constructor|].
  cbn [glue]. constructor; [|exact Hrest]. now rewrite no_nl_app, Hc, Hl.
Qed.

Lemma pending_no_nl_kept cur text : no_nl cur = true -> no_nl (pending cur text) = true.
Proof.
  intros Hc. unfold pending. rewrite no_nl_app.
  assert (Hl : no_nl (last (split_nl text) []) = true)
    by (apply Forall_last; [apply split_nl_pieces | reflexivity]).
  rewrite Hl. now destruct (removelast (split_nl text)); rewrite ?Hc.
Qed.

Lemma process_complete_lines_no_nl ls s :
  no_nl (current_line s) = true ->
  Forall (fun l => no_nl l = true) ls ->
  no_nl (current_line (final (process_complete_lines ls s))) = true.
Proof.
  intros Hc H. revert s Hc.
  induction H as [|l rest Hl Hrest IH]; intros [b c k i] Hc; [exact Hc|].
  cbn [current_line] in Hc.
  cbn [process_complete_lines]. do 3 step. rewrite _process_line_run.
  destruct (line_step (c ++ l) k i) as [o k' i'|e k' i']; cbn [with_text].
  - do 2 step. specialize (IH (mkState b [] k' i') eq_refl).
    destruct (process_complete_lines rest (mkState b [] k' i')); exact IH.
  - cbn [final current_line]. now rewrite no_nl_app, Hc, Hl.
Qed.

Lemma add_chunk_no_nl chunk s :
  no_nl (current_line s) = true ->
  no_nl (current_line (final (add_chunk chunk s))) = true.
Proof.
  destruct s as [b c k i]; cbn [current_line]; intros Hc.
  unfold add_chunk, _process_buffer. do 3 step.
  pose proof (@process_complete_lines_no_nl
                (removelast (split_nl (b ++ chunk)))
                (mkState (b ++ chunk) c k i) Hc
                (Forall_removelast (split_nl_pieces (b ++ chunk)))) as P.
  destruct (process_complete_lines (removelast (split_nl (b ++ chunk)))
              (mkState (b ++ chunk) c k i)) as [o [b1 c1 k1 i1]|e s1];
    [|exact P].
  cbn [final current_line] in P.
  assert (Hp : no_nl (c1 ++ last (split_nl (b ++ chunk)) []) = true).
  { rewrite no_nl_app, P.
    apply Forall_last; [apply split_nl_pieces | reflexivity]. }
  do 3 step.
  match goal with |- context [80 <? ?n] => destruct (80 <? n) end.
  - step. rewrite _process_line_run.
    match goal with |- context [line_step ?l k1 i1] =>
      destruct (line_step l k1 i1) end; cbn [with_text].
    + step. reflexivity.
    + exact Hp.
  - exact Hp.
Qed.

Lemma flush_no_nl s :
  no_nl (current_line s) = true ->
  no_nl (current_line (final (flush s))) = true.
Proof.
  destruct s as [b c k i]; cbn [current_line]; intros Hc.
  destruct (flush (mkState b c k i)) as [o s'|e s'] eqn:E.
  - apply flush_text in E. destruct E as (_ & E & _).
    cbn [final]. now rewrite E.
  - revert E. unfold flush. step.
    destruct c as [|a c']; step.
    + step. rewrite _close_lists_run. step. discriminate.
    + rewrite _process_line_run.
      destruct (line_step (a :: c') k i) as [o k' i'|e' k' i'];
        cbn [with_text].
      * step. rewrite _close_lists_run. step. discriminate.
      * intros E; inversion E; subst. exact Hc.
Qed.

(** X26. After every sequence of [add_chunk] and [flush] calls, returned or
    raised, [current_line] holds no line feed: the line that the next call
    completes or that [flush] dispatches is a single line. *)
Theorem current_line_holds_no_line_feed (ops : list op) :
  forallb not_nl (current_line (run_ops ops init)) = true.
Proof.
  assert (G : forall s, no_nl (current_line s) = true ->
                        no_nl (current_line (run_ops ops s)) = true).
  { induction ops as [|o rest IH]; intros s H; [exact H|].
    cbn [run_ops fold_left]. apply IH.
    destruct o as [chunk|]; cbn [run_op].
    - now apply add_chunk_no_nl.
    - now apply flush_no_nl. }
  exact (G init eq_refl).
Qed.

(** * Lines that raise *)

(** ** The lines that raise *)

Lemma span_split p s :
  s = fst (span p s) ++ snd (span p s) /\ forallb p (fst (span p s)) = true.
Proof.
  induction s as [|c t [IH1 IH2]]; [now split|].
  cbn [span]. destruct (p c) eqn:E; [|now split].
  destruct (span p t) as [a b]. cbn [fst snd] in *.
  split; [cbn [app]; now rewrite <- IH1 | cbn [forallb]; now rewrite E, IH2].
Qed.

Lemma span_prefix p a c r :
  forallb p a = true -> p c = false -> span p (a ++ c :: r) = (a, c :: r).
Proof.
  intros Ha Hc. induction a as [|x a IH]; cbn [app span].
  - now rewrite Hc.
  - cbn [forallb] in Ha. apply andb_true_iff in Ha. destruct Ha as [-> Ha].
    now rewrite (IH Ha).
Qed.

Lemma all_hashes h :
  forallb (Ascii.eqb hash) h = true -> h = repeat hash (length h).
Proof.
  induction h as [|c t IH]; [reflexivity|].
  cbn [forallb]. intros H. apply andb_true_iff in H. destruct H as [Hc Ht].
  apply Ascii.eqb_eq in Hc. subst c. cbn [length repeat]. now rewrite <- IH.
Qed.

Lemma forallb_repeat {A} (f : A -> bool) x n :
  f x = true -> forallb f (repeat x n) = true.
Proof. intros H. induction n; cbn [repeat forallb]; [|rewrite H]; auto. Qed.

Lemma match_rest_no_nl r :
  no_nl r = true ->
  match_rest r = match r with [] => None | _ :: _ => Some r end.
Proof.
  intros H. unfold match_rest.
  assert (E : span not_nl r = (r, [])).
  { clear -H. induction r as [|c t IH]; [reflexivity|].
    unfold no_nl in H. cbn [forallb] in H. apply andb_true_iff in H.
    destruct H as [Hc Ht]. cbn [span]. now rewrite Hc, (IH Ht). }
  rewrite E. now destruct r.
Qed.

Lemma space_is_no_hash c : isspace c = true -> Ascii.eqb hash c = false.
Proof.
  intros H. destruct (Ascii.eqb_spec hash c) as [<-|]; [discriminate H | reflexivity].
Qed.

Lemma digit_is_no_hash c : isdigit c = true -> Ascii.eqb hash c = false.
Proof.
  intros H. destruct (Ascii.eqb_spec hash c) as [<-|]; [discriminate H | reflexivity].
Qed.

Lemma bare_header_facts k c :
  1 <= k <= 6 -> isspace c = true ->
  is_header (repeat hash k ++ [c]) = true /\
  match_header (repeat hash k ++ [c]) = None.
Proof.
  intros Hk Hc.
  assert (M : match_hashes (repeat hash k ++ [c]) = Some (k, [])).
  { unfold match_hashes.
    rewrite (@span_prefix (Ascii.eqb hash) (repeat hash k) c []
               (forallb_repeat _ _ k (Ascii.eqb_refl hash))
               (space_is_no_hash _ Hc)).
    rewrite repeat_length, Hc.
    assert (E1 : (1 <=? k) = true) by (apply Nat.leb_le; lia).
    assert (E6 : (k <=? 6) = true) by (apply Nat.leb_le; lia).
    now rewrite E1, E6. }
  unfold is_header, match_header. rewrite M. now split.
Qed.

Lemma number_marker_facts d c text :
  d <> [] -> forallb isdigit d = true -> isspace c = true ->
  no_nl text = true ->
  is_header (d ++ py "." ++ c :: text) = false /\
  is_ordered (d ++ py "." ++ c :: text) = true /\
  match_ordered (d ++ py "." ++ c :: text)
  = match text with [] => None | _ :: _ => Some (d, text) end.
Proof.
  intros Hd Hdig Hc Ht.
  destruct d as [|x d']; [congruence|].
  pose proof Hdig as Hx. cbn [forallb] in Hx. apply andb_true_iff in Hx.
  destruct Hx as [Hx _].
  assert (H1 : is_header ((x :: d') ++ py "." ++ c :: text) = false).
  { unfold is_header, match_hashes. cbn [app span].
    now rewrite (digit_is_no_hash _ Hx). }
  assert (M : match_number ((x :: d') ++ py "." ++ c :: text)
              = Some (x :: d', text)).
  { unfold match_number.
    change ((x :: d') ++ py "." ++ c :: text)
      with ((x :: d') ++ "."%char :: c :: text).
    rewrite (@span_prefix isdigit (x :: d') "."%char (c :: text) Hdig eq_refl).
    now rewrite Hc. }
  unfold is_ordered, match_ordered. rewrite M, (match_rest_no_nl _ Ht).
  split; [exact H1|]. split; [reflexivity|]. now destruct text.
Qed.

(** What the two patterns of a marker say of a line with no line feed. *)
Lemma match_hashes_shape s level r :
  match_hashes s = Some (level, r) ->
  exists c, 1 <= level <= 6 /\ isspace c = true /\
            s = repeat hash level ++ c :: r.
Proof.
  unfold match_hashes.
  destruct (span_split (Ascii.eqb hash) s) as [Es Eh].
  destruct (span (Ascii.eqb hash) s) as [h r0]. cbn [fst snd] in Es, Eh.
  destruct r0 as [|c r']; [discriminate|].
  destruct ((1 <=? length h) && (length h <=? 6) && isspace c) eqn:Ec;
    [|discriminate].
  apply andb_true_iff in Ec. destruct Ec as [Ec Hc].
  apply andb_true_iff in Ec. destruct Ec as [E1 E6].
  apply Nat.leb_le in E1, E6.
  intros H; inversion H; subst level r. exists c.
  split; [lia|]. split; [exact Hc|]. now rewrite <- (all_hashes _ Eh).
Qed.

Lemma match_number_shape s d r :
  match_number s = Some (d, r) ->
  exists c, d <> [] /\ forallb isdigit d = true /\ isspace c = true /\
            s = d ++ py "." ++ c :: r.
Proof.
  unfold match_number.
  destruct (span_split isdigit s) as [Es Ed].
  destruct (span isdigit s) as [d0 r0]. cbn [fst snd] in Es, Ed.
  destruct d0 as [|x d']; [discriminate|].
  destruct r0 as [|dot [|c r']]; try discriminate.
  destruct (Ascii.eqb dot "."%char && isspace c) eqn:Ec; [|discriminate].
  apply andb_true_iff in Ec. destruct Ec as [Edot Hc].
  apply Ascii.eqb_eq in Edot. subst dot.
  intros H; inversion H; subst d r. exists c.
  split; [discriminate|]. split; [exact Ed|]. split; [exact Hc | exact Es].
Qed.

Lemma no_nl_after_marker m c r :
  no_nl (m ++ c :: r) = true -> no_nl r = true.
Proof.
  intros H. rewrite no_nl_app in H. apply andb_true_iff in H.
  destruct H as [_ H]. unfold no_nl in H. cbn [forallb] in H.
  now apply andb_true_iff in H.
Qed.

Lemma attribute_error_line_is_bare line stack i stack' i' :
  well_typed stack -> no_nl line = true ->
  line_step line stack i = Failed AttributeError stack' i' ->
  bare_marker (lstrip line).
Proof.
  intros Hk Hnl H.
  assert (Hs : no_nl (lstrip line) = true) by now apply forallb_lstrip.
  destruct (@line_step_failures line stack i _ stack' i' Hk H)
    as [[_ [[Hh Hm]|(_ & Ho & Hm)]]|[E _]]; [| |discriminate E].
  - left. unfold is_header in Hh. unfold match_header in Hm.
    destruct (match_hashes (lstrip line)) as [[level r]|] eqn:M;
      [|discriminate].
    destruct (match_hashes_shape _ M) as [c (Hl & Hc & Es)].
    assert (Hr : no_nl r = true)
      by (rewrite Es in Hs; now apply no_nl_after_marker in Hs).
    rewrite (match_rest_no_nl _ Hr) in Hm.
    destruct r as [|? ?]; [|discriminate].
    now exists level, c.
  - right. unfold is_ordered in Ho. unfold match_ordered in Hm.
    destruct (match_number (lstrip line)) as [[d r]|] eqn:M; [|discriminate].
    destruct (match_number_shape _ M) as [c (Hd & Hdig & Hc & Es)].
    assert (Hr : no_nl r = true).
    { rewrite Es in Hs. apply no_nl_after_marker in Hs.
      now apply (@no_nl_after_marker [] c r). }
    rewrite (match_rest_no_nl _ Hr) in Hm.
    destruct r as [|? ?]; [|discriminate].
    now exists d, c.
Qed.

Lemma value_error_line_is_oversized line stack i stack' i' :
  well_typed stack -> no_nl line = true ->
  line_step line stack i = Failed ValueError stack' i' ->
  oversized_number (lstrip line).
Proof.
  intros Hk Hnl H.
  assert (Hs : no_nl (lstrip line) = true) by now apply forallb_lstrip.
  destruct (@line_step_failures line stack i _ stack' i' Hk H)
    as [[E _]|(_ & _ & _ & digits & text & Hm & L)]; [discriminate E|].
  unfold match_ordered in Hm.
  destruct (match_number (lstrip line)) as [[d r]|] eqn:M; [|discriminate].
  destruct (match_number_shape _ M) as [c (Hd & Hdig & Hc & Es)].
  assert (Hr : no_nl r = true).
  { rewrite Es in Hs. apply no_nl_after_marker in Hs.
    now apply (@no_nl_after_marker [] c r). }
  rewrite (match_rest_no_nl _ Hr) in Hm.
  destruct r as [|a r']; [discriminate|].
  inversion Hm; subst digits text.
  exists d, c, (a :: r').
  split; [now apply Nat.ltb_lt|]. split; [exact Hdig|].
  split; [exact Hc|]. split; [discriminate | exact Es].
Qed.

Lemma bare_marker_fails line stack i :
  bare_marker (lstrip line) ->
  exists stack' i', line_step line stack i = Failed AttributeError stack' i'.
Proof.
  intros Hb. unfold line_step.
  destruct Hb as [[n [x (Hn & Hx & Es)]]|[d [x (Hd & Hdig & Hx & Es)]]];
    rewrite Es.
  - destruct (@bare_header_facts n x Hn Hx) as [-> ->].
    now exists [], i.
  - destruct (@number_marker_facts d x [] Hd Hdig Hx eq_refl)
      as (-> & -> & ->).
    now exists stack, i.
Qed.

Lemma oversized_number_fails line stack i :
  no_nl line = true -> oversized_number (lstrip line) ->
  exists stack' i', line_step line stack i = Failed ValueError stack' i'.
Proof.
  intros Hnl (d & c & text & Hlen & Hdig & Hc & Ht & Es).
  assert (Hs : no_nl (lstrip line) = true) by now apply forallb_lstrip.
  assert (Hr : no_nl text = true).
  { rewrite Es in Hs. apply no_nl_after_marker in Hs.
    now apply (@no_nl_after_marker [] c text). }
  assert (Hd : d <> []).
  { intros ->. cbn in Hlen. unfold int_max_str_digits in Hlen. lia. }
  unfold line_step. rewrite Es.
  change (d ++ py "." ++ [c] ++ text) with (d ++ py "." ++ c :: text).
  destruct (@number_marker_facts d c text Hd Hdig Hc Hr) as (-> & -> & ->).
  destruct text as [|a r']; [congruence|].
  unfold exceeds_int_limit.
  apply Nat.ltb_lt in Hlen. rewrite Hlen.
  now exists stack, i.
Qed.

(** X27. On a list stack whose ordered frames hold a last number (as in
    every state that calls reach), a line with no line feed makes
    [_process_line] raise in two cases only, told by the line after its
    leading white space.  It raises [AttributeError] exactly when that is a
    bare marker: one to six [#], or digits and a dot, followed by one
    white-space character and nothing else.  It raises [ValueError] exactly
    when that is an ordered item with text whose number has more digits
    than [int] converts. *)
Theorem line_raises_iff_marker_fails (line : str) (s : State) :
  well_typed (list_stack s) ->
  forallb not_nl line = true ->
  ((exists s', _process_line line s = Raise AttributeError s')
   <-> bare_marker (lstrip line)) /\
  ((exists s', _process_line line s = Raise ValueError s')
   <-> oversized_number (lstrip line)) /\
  (forall e s', _process_line line s = Raise e s' ->
                e = AttributeError \/ e = ValueError).
Proof.
  destruct s as [b c k i]; cbn [list_stack]. intros Hk Hnl.
  rewrite _process_line_run. split; [|split].
  - split.
    + intros [s' H].
      destruct (line_step line k i) as [|e1 k1 i1] eqn:E; [discriminate|].
      cbn [with_text] in H. inversion H; subst e1.
      eapply attribute_error_line_is_bare; eassumption.
    + intros Hb.
      destruct (@bare_marker_fails line k i Hb) as [k' [i' G]].
      rewrite G. cbn [with_text]. now eexists.
  - split.
    + intros [s' H].
      destruct (line_step line k i) as [|e1 k1 i1] eqn:E; [discriminate|].
      cbn [with_text] in H. inversion H; subst e1.
      eapply value_error_line_is_oversized; eassumption.
    + intros Hb.
      destruct (@oversized_number_fails line k i Hnl Hb) as [k' [i' G]].
      rewrite G. cbn [with_text]. now eexists.
  - intros e s' H.
    destruct (line_step line k i) as [|e1 k1 i1] eqn:E; [discriminate|].
    cbn [with_text] in H. inversion H; subst e1.
    destruct (@line_step_failures line k i e k1 i1 Hk E) as [[-> _]|[-> _]];
      [now left | now right].
Qed.

(** An indented header of level 2 with no text, and an ordered item whose
    number has 4301 digits. *)
Lemma line_raises_witness :
  (exists s', _process_line (py "  ## ") init = Raise AttributeError s') /\
  (exists s', _process_line (repeat "7"%char 4301 ++ py ". x") init
              = Raise ValueError s').
Proof.
  split.
  - apply (proj2 (proj1 (@line_raises_iff_marker_fails (py "  ## ") init
                           (Forall_nil _) eq_refl))).
    left. exists 2, " "%char. repeat split; lia.
  - apply (proj2 (proj1 (proj2
             (@line_raises_iff_marker_fails
                (repeat "7"%char 4301 ++ py ". x") init
                (Forall_nil _) ltac:(vm_compute; reflexivity))))).
    exists (repeat "7"%char 4301), " "%char, (py "x").
    split; [rewrite repeat_length; apply Nat.ltb_lt; vm_compute; reflexivity|].
    split; [apply forallb_repeat; reflexivity|].
    split; [reflexivity|]. split; [discriminate|].
    vm_compute; reflexivity.
Defined.
